(** * The curriculum-standard extraction pipeline of the Gemini service

    A shallow embedding of the page-range parser, the PDF slicer, the chunk
    scheduler, the result consolidator and the text sanitizer of the
    service module, followed by the properties established about them.

    JavaScript strings are sequences of UTF-16 code units, and every regular
    expression of the module is written without the [u] flag, so it works on
    code units as well: a string is a [list N] here.  All Hangul syllables
    and punctuation marks the module mentions lie in the basic plane, one
    code unit each. *)

From Stdlib Require Import ZArith NArith Lia Decimal Ascii String.
From Stdlib Require DecimalN DecimalPos.
From stdpp Require Import base option list gmap sorting.

Local Open Scope N_scope.

(** ** JavaScript strings *)

Abbreviation jsstring := (list N).

Module Js.

(** [\s] of a regular expression and the characters removed by
    [String.prototype.trim]: WhiteSpace and LineTerminator of ECMAScript. *)
Definition isWhiteSpace (c : N) : bool :=
  (c =? 0x09) || (c =? 0x0A) || (c =? 0x0B) || (c =? 0x0C) || (c =? 0x0D)
  || (c =? 0x20) || (c =? 0xA0) || (c =? 0x1680)
  || ((0x2000 <=? c) && (c <=? 0x200A))
  || (c =? 0x2028) || (c =? 0x2029) || (c =? 0x202F) || (c =? 0x205F)
  || (c =? 0x3000) || (c =? 0xFEFF).

Fixpoint dropWhile (p : N -> bool) (s : jsstring) : jsstring :=
  match s with
  | [] => []
  | c :: t => if p c then dropWhile p t else s
  end.

Definition trimStart (s : jsstring) : jsstring := dropWhile isWhiteSpace s.
Definition trimEnd (s : jsstring) : jsstring :=
  rev (dropWhile isWhiteSpace (rev s)).
(** [s.trim()] *)
Definition trim (s : jsstring) : jsstring := trimEnd (trimStart s).

(** [s.replace(/\s+/g, '')] and [s.replace(/[\s　]+/g, '')]: every
    white-space unit goes ([　] is already in [\s]). *)
Definition removeWhiteSpace (s : jsstring) : jsstring :=
  List.filter (fun c => negb (isWhiteSpace c)) s.

Fixpoint isPrefixOf (p s : jsstring) : bool :=
  match p, s with
  | [], _ => true
  | a :: p', b :: s' => (a =? b) && isPrefixOf p' s'
  | _ :: _, [] => false
  end.

(** [s.includes(p)] *)
Fixpoint includes (s p : jsstring) : bool :=
  isPrefixOf p s ||
  match s with
  | [] => false
  | _ :: t => includes t p
  end.

(** [a === b] on strings *)
Definition eqb (a b : jsstring) : bool := bool_decide (a = b).

(** A regular expression [/[...]$/] tested on [s]: the last unit of [s]
    is in the class. *)
Definition endsWithClass (cls : N -> bool) (s : jsstring) : bool :=
  match rev s with
  | [] => false
  | c :: _ => cls c
  end.

(** Decimal rendering of a non-negative integer, as in a template
    literal. *)
Fixpoint digits (u : Decimal.uint) : jsstring :=
  match u with
  | Nil => []
  | D0 u => 0x30 :: digits u
  | D1 u => 0x31 :: digits u
  | D2 u => 0x32 :: digits u
  | D3 u => 0x33 :: digits u
  | D4 u => 0x34 :: digits u
  | D5 u => 0x35 :: digits u
  | D6 u => 0x36 :: digits u
  | D7 u => 0x37 :: digits u
  | D8 u => 0x38 :: digits u
  | D9 u => 0x39 :: digits u
  end.

Definition ofN (n : N) : jsstring := digits (N.to_uint n).

(** An ASCII literal as code units. *)
Definition ofAscii (s : string) : jsstring :=
  map N_of_ascii (list_ascii_of_string s).

End Js.

(** ** TextSanitizer *)

(** The units the sanitizer knows: [아] (U+C544) followed by the jungseong
    [ᅢ] (U+1162) is the corrupted rendering, U+FF65 the halfwidth katakana
    middle dot, U+00B7 the middle dot. *)
Definition cu_A : N := 0xC544.
Definition cu_AE : N := 0x1162.
Definition cu_halfwidth_dot : N := 0xFF65.
Definition cu_middle_dot : N := 0x00B7.

(** [.replace(/아ᅢ/g, '·')]: leftmost matches, scanning resumes after
    each. *)
Fixpoint replaceCorrupted (s : jsstring) : jsstring :=
  match s with
  | [] => []
  | a :: r =>
      match r with
      | b :: t =>
          if (a =? cu_A) && (b =? cu_AE)
          then cu_middle_dot :: replaceCorrupted t
          else a :: replaceCorrupted r
      | [] => [a]
      end
  end.

(** [.replace(/･/g, '·')] and [.replace(/･/g, '·')]: the two literals
    are the same unit, U+FF65. *)
Definition replaceHalfwidthDot (s : jsstring) : jsstring :=
  map (fun c => if c =? cu_halfwidth_dot then cu_middle_dot else c) s.

(** The chain of three replacements. *)
Definition sanitizeString (s : jsstring) : jsstring :=
  replaceHalfwidthDot (replaceHalfwidthDot (replaceCorrupted s)).

(** A field of an object of type [any]: [None] is an absent ([undefined])
    property; [!text] holds of it and of the empty string. *)
Definition sanitizeText (text : option jsstring) : jsstring :=
  match text with
  | None => []
  | Some [] => []
  | Some s => sanitizeString s
  end.

(** ** Candidate and final records *)

(** The objects handled by the consolidator have type [any]; the fields it
    reads or writes are those of [TeachingPlanItem].  [None] is an absent
    property. *)
Record Item := mkItem {
  item_unit : option jsstring;
  item_standard : option jsstring;
  item_element : option jsstring;
  item_teachingMethod : option jsstring;
  item_notes : option jsstring;
  item_id : option jsstring;
  item_period : option jsstring;
  item_hours : option jsstring;
  item_remarks : option jsstring;
  item_method : option (list jsstring)
}.

(** A candidate as the extraction schema declares it: five text fields. *)
Definition candidate (unit standard element teachingMethod notes : jsstring) : Item :=
  mkItem (Some unit) (Some standard) (Some element) (Some teachingMethod)
         (Some notes) None None None None None.

(** ** ResultConsolidator: the per-candidate filters *)

Definition cu_lbracket : N := 0x5B.
Definition cu_rbracket : N := 0x5D.

(** [/^[-·*]\s*/] *)
Definition isMarker (c : N) : bool :=
  (c =? 0x2D) || (c =? cu_middle_dot) || (c =? 0x2A).

(** [stdText.replace(/^[-·*]\s*/, '')] *)
Definition stripMarker (s : jsstring) : jsstring :=
  match s with
  | c :: t => if isMarker c then Js.dropWhile Js.isWhiteSpace t else s
  | [] => []
  end.

(** The rest of [s] after its first [']'], if it has one. *)
Fixpoint afterClose (s : jsstring) : option jsstring :=
  match s with
  | [] => None
  | c :: t => if c =? cu_rbracket then Some t else afterClose t
  end.

(** [/\[[^\]]+\]/] matched at the start of [s]: an opening bracket, one
    unit that is not a closing bracket, then everything up to the first
    closing bracket (the greedy class stops there, and giving units back
    never ends on a closing bracket).  Yields the rest of [s]. *)
Definition codeAt (s : jsstring) : option jsstring :=
  match s with
  | c0 :: c1 :: t =>
      if (c0 =? cu_lbracket) && negb (c1 =? cu_rbracket) then afterClose t else None
  | _ => None
  end.

(** [/\[[^\]]+\]/.test(s)] and [!!s.match(/\[[^\]]+\]/)] *)
Fixpoint testCode (s : jsstring) : bool :=
  match s with
  | [] => false
  | _ :: t => if codeAt s is Some _ then true else testCode t
  end.

(** [s.replace(/\[[^\]]+\]/g, '')].  [inCode] says that the scan is inside
    a match found earlier, whose units go up to its closing bracket. *)
Fixpoint removeCodesFrom (inCode : bool) (s : jsstring) : jsstring :=
  match s with
  | [] => []
  | c :: t =>
      if inCode
      then removeCodesFrom (negb (c =? cu_rbracket)) t
      else if codeAt s is Some _ then removeCodesFrom true t
           else c :: removeCodesFrom false t
  end.

Definition removeCodes (s : jsstring) : jsstring := removeCodesFrom false s.

Definition headers : list jsstring := [
    (* 성취기준 *) [0xC131; 0xCDE8; 0xAE30; 0xC900];
    (* 내용체계 *) [0xB0B4; 0xC6A9; 0xCCB4; 0xACC4];
    (* 영역 *) [0xC601; 0xC5ED];
    (* 단원명 *) [0xB2E8; 0xC6D0; 0xBA85];
    (* 평가요소 *) [0xD3C9; 0xAC00; 0xC694; 0xC18C];
    (* 교육과정 *) [0xAD50; 0xC721; 0xACFC; 0xC815];
    (* 핵심아이디어 *) [0xD575; 0xC2EC; 0xC544; 0xC774; 0xB514; 0xC5B4];
    (* 단원 *) [0xB2E8; 0xC6D0];
    (* 구분 *) [0xAD6C; 0xBD84];
    (* 순서 *) [0xC21C; 0xC11C];
    (* 시기 *) [0xC2DC; 0xAE30];
    (* 차시 *) [0xCC28; 0xC2DC] ].

(** 성취기준코드 *)
Definition codeHeader : jsstring := [0xC131; 0xCDE8; 0xAE30; 0xC900; 0xCF54; 0xB4DC].

(** [/[다\.?]$/] *)
Definition isDaClass (c : N) : bool := (c =? 0xB2E4) || (c =? 0x2E) || (c =? 0x3F).
(** [/[임음함]$/] *)
Definition isNounClass (c : N) : bool := (c =? 0xC784) || (c =? 0xC74C) || (c =? 0xD568).

(** Step 1 of the loop body: [(item.standard || '').trim()] without its
    leading marker. *)
Definition stdTextOf (item : Item) : jsstring :=
  stripMarker (Js.trim (default [] (item_standard item))).

Definition bodyTextOf (stdText : jsstring) : jsstring := Js.trim (removeCodes stdText).
Definition cleanBodyOf (stdText : jsstring) : jsstring :=
  Js.removeWhiteSpace (bodyTextOf stdText).

(** [item.unit && item.unit.replace(/\s+/g, '') === cleanBody] *)
Definition unitEcho (item : Item) (cleanBody : jsstring) : bool :=
  match item_unit item with
  | None => false
  | Some [] => false
  | Some u => Js.eqb (Js.removeWhiteSpace u) cleanBody
  end.

(** What the loop body decides about one candidate before it looks at the
    records accepted so far: [Skip] for each [continue], otherwise the two
    values the deduplication uses. *)
Inductive Verdict :=
| Skip
| Accept (hasCode : bool) (cleanBody : jsstring).

Definition classify (item : Item) : Verdict :=
  let stdText := stdTextOf item in
  if (length stdText <? 10)%nat then Skip else
  let hasCode := testCode stdText in
  let bodyText := bodyTextOf stdText in
  let cleanBody := cleanBodyOf stdText in
  if existsb (fun h => Js.eqb cleanBody h || Js.includes cleanBody codeHeader) headers
  then Skip else
  let endsWithDa := Js.endsWithClass isDaClass bodyText in
  let endsWithNoun := Js.endsWithClass isNounClass bodyText in
  if negb hasCode && negb endsWithDa && negb endsWithNoun
     && (length cleanBody <? 5)%nat
  then Skip else
  if unitEcho item cleanBody then Skip else
  Accept hasCode cleanBody.

(** ** ResultConsolidator: deduplication *)

Record DedupState := mkDedup {
  finalItems : list Item;
  bodyMap : gmap (list N) nat
}.

Definition emptyDedup : DedupState := mkDedup [] ∅.

(** [String(undefined)]: what a regular expression tests when it is handed
    an absent property. *)
Definition undefinedText : jsstring :=
  [0x75; 0x6E; 0x64; 0x65; 0x66; 0x69; 0x6E; 0x65; 0x64].

(** One iteration of the loop.  [None] is the [TypeError] of reading
    [.standard] of an absent array element. *)
Definition dedupStep (st : DedupState) (item : Item) : option DedupState :=
  match classify item with
  | Skip => Some st
  | Accept hasCode cleanBody =>
      match bodyMap st !! cleanBody with
      | Some index =>
          existingItem ← finalItems st !! index;
          let existingHasCode :=
            testCode (default undefinedText (item_standard existingItem)) in
          if negb existingHasCode && hasCode
          then Some (mkDedup (<[index := item]> (finalItems st)) (bodyMap st))
          else Some st
      | None =>
          Some (mkDedup (finalItems st ++ [item])
                        (<[cleanBody := length (finalItems st)]> (bodyMap st)))
      end
  end.

Fixpoint dedupLoop (st : DedupState) (allItems : list Item) : option DedupState :=
  match allItems with
  | [] => Some st
  | item :: rest => st' ← dedupStep st item; dedupLoop st' rest
  end.

(** file-gen- *)
Definition idPrefix : jsstring :=
  [0x66; 0x69; 0x6C; 0x65; 0x2D; 0x67; 0x65; 0x6E; 0x2D].

(** The object literal of the final [map]; [now] is what [Date.now()]
    returns while record [idx] is built. *)
Definition finalize (now : nat -> N) (idx : nat) (item : Item) : Item :=
  {| item_unit := Some (sanitizeText (item_unit item));
     item_standard := Some (sanitizeText (item_standard item));
     item_element := Some (sanitizeText (item_element item));
     item_teachingMethod := Some (sanitizeText (item_teachingMethod item));
     item_notes := Some (sanitizeText (item_notes item));
     item_id := Some (idPrefix ++ Js.ofN (now idx) ++ [0x2D] ++ Js.ofN (N.of_nat idx));
     item_period := Some [];
     item_hours := Some [];
     item_remarks := Some [];
     item_method := Some [] |}.

(** The records accepted from [allItems], before the final [map]. *)
Definition accepted (allItems : list Item) : option (list Item) :=
  finalItems <$> dedupLoop emptyDedup allItems.

(** The "Deduplication & Filtering Logic" block with the final [map]. *)
Definition consolidate (now : nat -> N) (allItems : list Item) : option (list Item) :=
  imap (finalize now) <$> accepted allItems.

(** ** PageRangeParser *)

(** JavaScript numbers that are integers are modelled as [Z].  [parseInt]
    rounds to a double; rounding is monotone and exact below 2^53, so it
    changes no comparison with a page count, and none of the sums below
    leaves that range when [totalPages] is one. *)

Definition isDigit (c : N) : bool := (0x30 <=? c) && (c <=? 0x39).

(** The value of the longest prefix of decimal digits; [acc] is the value
    read so far, [None] while no digit has been read. *)
Fixpoint digitsValue (acc : option Z) (s : jsstring) : option Z :=
  match s with
  | c :: t =>
      if isDigit c
      then digitsValue (Some (10 * default 0 acc + Z.of_N (c - 0x30))%Z) t
      else acc
  | [] => acc
  end.

(** [parseInt(s, 10)]; [None] is [NaN]. *)
Definition parseInt (s : jsstring) : option Z :=
  let s1 := Js.trimStart s in
  let '(sign, s2) :=
    match s1 with
    | c :: t => if c =? 0x2D then ((-1)%Z, t)
                else if c =? 0x2B then (1%Z, t) else (1%Z, s1)
    | [] => (1%Z, [])
    end in
  (fun v => (sign * v)%Z) <$> digitsValue None s2.

(** [rangeStr.split(/,|\s+/)]: a comma or a maximal run of white space
    separates; [cur] is the piece being read (reversed), [inSpace] says that
    the previous unit belonged to a white-space separator. *)
Fixpoint splitRangeFrom (cur : jsstring) (inSpace : bool) (s : jsstring)
  : list jsstring :=
  match s with
  | [] => [rev cur]
  | c :: t =>
      if c =? 0x2C then rev cur :: splitRangeFrom [] false t
      else if Js.isWhiteSpace c
           then if inSpace then splitRangeFrom cur true t
                else rev cur :: splitRangeFrom [] true t
           else splitRangeFrom (c :: cur) false t
  end.

Definition splitRange (s : jsstring) : list jsstring := splitRangeFrom [] false s.

(** [trimmed.split('-')] *)
Fixpoint splitDashFrom (cur : jsstring) (s : jsstring) : list jsstring :=
  match s with
  | [] => [rev cur]
  | c :: t =>
      if c =? 0x2D then rev cur :: splitDashFrom [] t
      else splitDashFrom (c :: cur) t
  end.

Definition splitDash (s : jsstring) : list jsstring := splitDashFrom [] s.

(** [pages.add(x)] on a [Set], whose elements keep their insertion order. *)
Definition setAdd (x : Z) (pages : list Z) : list Z :=
  if decide (x ∈ pages) then pages else pages ++ [x].

(** [for (let i = s; i <= e; i++) pages.add(i - 1)] *)
Definition addRange (s e : Z) (pages : list Z) : list Z :=
  foldl (fun acc i => setAdd (i - 1)%Z acc) pages (seqZ s (e - s + 1)).

(** The body of the loop over the parts. *)
Definition addPart (totalPages : Z) (pages : list Z) (part : jsstring) : list Z :=
  let trimmed := Js.trim part in
  match trimmed with
  | [] => pages
  | _ =>
      if Js.includes trimmed [0x2D]
      then
        match splitDash trimmed with
        | startStr :: endStr :: _ =>
            match parseInt startStr, parseInt endStr with
            | Some start, Some end_ =>
                let s := Z.max 1 (Z.min start end_) in
                let e := Z.min totalPages (Z.max start end_) in
                addRange s e pages
            | _, _ => pages
            end
        | _ => pages
        end
      else
        match parseInt trimmed with
        | Some page =>
            if ((1 <=? page) && (page <=? totalPages))%Z
            then setAdd (page - 1)%Z pages else pages
        | None => pages
        end
  end.

(** [Array.from(pages).sort((a, b) => a - b)] *)
Definition parsePageRange (rangeStr : jsstring) (totalPages : Z) : list Z :=
  merge_sort Z.le (foldl (addPart totalPages) [] (splitRange rangeStr)).

(** ** ChunkScheduler: the grouping *)

Definition CHUNK_SIZE : nat := 3.

(** [a.slice(i, j)] for [0 <= i <= j] *)
Definition slice {A} (a : list A) (i j : nat) : list A := take (j - i) (drop i a).

(** [for (let i = 0; i < requestedIndices.length; i += K) chunkedIndices.push(...)].
    [fuel] bounds the number of iterations; [None] means that it ran out. *)
Fixpoint chunkLoop (K : nat) (requestedIndices : list Z) (fuel i : nat)
  : option (list (list Z)) :=
  if (i <? length requestedIndices)%nat then
    match fuel with
    | O => None
    | S fuel' =>
        cons (slice requestedIndices i (i + K)) <$>
          chunkLoop K requestedIndices fuel' (i + K)
    end
  else Some [].

Definition chunkIndices (K : nat) (requestedIndices : list Z) : option (list (list Z)) :=
  chunkLoop K requestedIndices (length requestedIndices) 0.

(** ** Promises, the document and the extraction service *)

Inductive Error :=
| ApiKeyMissing     (* [new Error("API Key missing")] *)
| FileReadError     (* a [FileReader] or [arrayBuffer] rejection *)
| PdfError          (* thrown by the PDF library *)
| ServiceError      (* thrown by the generative-language client *)
| JsonSyntaxError   (* thrown by [JSON.parse] *)
| TypeError
| Diverges.         (* the model of a loop ran out of fuel *)

(** How an awaited promise settles. *)
Inductive Outcome (A : Type) :=
| Resolved (a : A)
| Rejected (e : Error).
Arguments Resolved {A} a.
Arguments Rejected {A} e.

#[global] Instance outcome_ret : MRet Outcome := fun A a => Resolved a.
#[global] Instance outcome_bind : MBind Outcome := fun A B k m =>
  match m with
  | Resolved a => k a
  | Rejected e => Rejected e
  end.

(** [try { body } catch (e) { handler }] *)
Definition tryCatch {A} (body : Outcome A) (handler : Error -> Outcome A) : Outcome A :=
  match body with
  | Resolved a => Resolved a
  | Rejected e => handler e
  end.

(** [await Promise.all(ps)] *)
Fixpoint promiseAll {A} (ps : list (Outcome A)) : Outcome (list A) :=
  match ps with
  | [] => Resolved []
  | p :: rest => a ← p; as_ ← promiseAll rest; Resolved (a :: as_)
  end.

(** A page of a PDF document, by its content. *)
Definition Page := jsstring.

(** The uploaded file, by what the module asks of it. *)
Record File := mkFile {
  file_mime : jsstring;                    (* [getMimeType(file)] *)
  file_pdf : Outcome (list Page);          (* [PDFDocument.load(await file.arrayBuffer())] *)
  file_base64 : Outcome jsstring;          (* [fileToBase64(file)] *)
  file_text : Outcome jsstring             (* [readTextFile(file)] *)
}.

(** One element of the [contents] array of an extraction call. *)
Inductive Part :=
| InlineData (mimeType data : jsstring)
| Text (text : jsstring).

(** The collaborators outside the module.  [generateContent] is given the
    chunk index besides the contents, so that two calls of one run may
    settle differently; it yields [response.text]. *)
Record Env := mkEnv {
  getApiKey : option jsstring;
  saveAsBase64 : list Page -> Outcome jsstring;
  generateContent : nat -> list Part -> Outcome (option jsstring);
  jsonParse : jsstring -> Outcome (list Item);
  dateNow : nat -> N
}.

Definition mimePdf : jsstring := Js.ofAscii "application/pdf".
Definition mimeText : jsstring := Js.ofAscii "text/plain".

(** ** DocumentSlicer *)

(** [newPdf.copyPages(pdfDoc, pageIndices)]: an index outside the document
    throws. *)
Definition copyPages (pdfDoc : list Page) (pageIndices : list Z) : Outcome (list Page) :=
  match mapM (fun i : Z => if (0 <=? i)%Z then pdfDoc !! Z.to_nat i else None) pageIndices with
  | Some pages => Resolved pages
  | None => Rejected PdfError
  end.

(** [Some] is the Base64 text, [None] is [null]. *)
Definition extractPdfPagesByIndices (env : Env) (file : File) (pageIndices : list Z)
  : Outcome (option jsstring) :=
  tryCatch
    (if (length pageIndices =? 0)%nat then Resolved None else
     pdfDoc ← file_pdf file;
     copiedPages ← copyPages pdfDoc pageIndices;
     let newPdf := foldl (fun doc page => doc ++ [page]) [] copiedPages in
     savedBase64 ← saveAsBase64 env newPdf;
     Resolved (Some savedBase64))
    (fun _ => Resolved None).

(** ** ChunkScheduler: the extraction calls *)

(** [prompt] is the instruction text, built from subject, grade and scope. *)
Definition analyzeChunk (env : Env) (chunkContent : list Part) (prompt : jsstring)
    (chunkIndex : nat) : Outcome (list Item) :=
  tryCatch
    (text ← generateContent env chunkIndex (chunkContent ++ [Text prompt]);
     match text with
     | None => Resolved []
     | Some [] => Resolved []
     | Some t => jsonParse env t
     end)
    (fun _ => Resolved []).

(** What the first part of the operation leaves: the [return []] inside
    the [try], or the candidates gathered in [allItems]. *)
Inductive Flow :=
| Return (result : list Item)
| Proceed (allItems : list Item).

Definition chunkPromise (env : Env) (file : File) (prompt : jsstring)
    (i : nat) (indices : list Z) : Outcome (list Item) :=
  slicedBase64 ← extractPdfPagesByIndices env file indices;
  match slicedBase64 with
  | None => Resolved []
  | Some [] => Resolved []
  | Some data => analyzeChunk env [InlineData mimePdf data] prompt i
  end.

Definition chunkedExtraction (env : Env) (file : File) (prompt pageRange : jsstring)
  : Outcome Flow :=
  pdfDoc ← file_pdf file;
  let totalPages := Z.of_nat (length pdfDoc) in
  let requestedIndices := parsePageRange pageRange totalPages in
  if (length requestedIndices =? 0)%nat then Resolved (Return []) else
  match chunkIndices CHUNK_SIZE requestedIndices with
  | None => Rejected Diverges
  | Some chunkedIndices =>
      results ← promiseAll (imap (chunkPromise env file prompt) chunkedIndices);
      Resolved (Proceed (concat results))
  end.

Definition fallbackExtraction (env : Env) (file : File) (prompt : jsstring)
  : Outcome Flow :=
  base64Data ← file_base64 file;
  allItems ← analyzeChunk env [InlineData (file_mime file) base64Data] prompt 0;
  Resolved (Proceed allItems).

Definition singleExtraction (env : Env) (file : File) (prompt : jsstring)
  : Outcome Flow :=
  contents ← (if Js.eqb (file_mime file) mimeText
              then textContent ← file_text file; Resolved [Text textContent]
              else base64Data ← file_base64 file;
                   Resolved [InlineData (file_mime file) base64Data]);
  allItems ← analyzeChunk env contents prompt 0;
  Resolved (Proceed allItems).

(** [pageRange && pageRange.trim()] *)
Definition hasPageRange (pageRange : option jsstring) : option jsstring :=
  match pageRange with
  | Some r => match Js.trim r with [] => None | _ => Some r end
  | None => None
  end.

Definition parseStandardsAndGeneratePlan (env : Env) (file : File)
    (prompt : jsstring) (pageRange : option jsstring) : Outcome (list Item) :=
  match getApiKey env with
  | None => Rejected ApiKeyMissing
  | Some [] => Rejected ApiKeyMissing
  | Some _ =>
      flow ← match Js.eqb (file_mime file) mimePdf, hasPageRange pageRange with
             | true, Some r =>
                 tryCatch (chunkedExtraction env file prompt r)
                          (fun _ => fallbackExtraction env file prompt)
             | _, _ => singleExtraction env file prompt
             end;
      match flow with
      | Return result => Resolved result
      | Proceed allItems =>
          match consolidate (dateNow env) allItems with
          | Some result => Resolved result
          | None => Rejected TypeError
          end
      end
  end.

(** ** Invariants *)

(** The set of pages gathered so far by the parser: no index twice, every
    index one of the document. *)
Definition pagesOk (totalPages : Z) (pages : list Z) : Prop :=
  NoDup pages /\ Forall (fun i => 0 <= i < totalPages)%Z pages.

(** The NormalizedKey of a candidate: its standard text without marker,
    bracketed codes and white space. *)
Definition keyOf (item : Item) : jsstring := cleanBodyOf (stdTextOf item).

(** [bodyMap] sends a key to the position of the record that has it, and
    holds nothing else. *)
Definition dedupOk (st : DedupState) : Prop :=
  forall k i, bodyMap st !! k = Some i <-> (keyOf <$> finalItems st) !! i = Some k.

(** No candidate of [items] is accepted under the key [k]. *)
Definition keyAbsent (k : jsstring) (items : list Item) : Prop :=
  Forall (fun x => forall h, classify x ≠ Accept h k) items.

(** A stored record is one the filters accepted. *)
Definition acceptedOk (item : Item) : Prop :=
  exists h, classify item = Accept h (keyOf item).

(** The sanitizer leaves the standard text and the unit of [item] as they
    are. *)
Definition sanitizerStable (item : Item) : Prop :=
  sanitizeText (item_standard item) = default [] (item_standard item)
  /\ sanitizeText (item_unit item) = default [] (item_unit item).

(** Reading the document, copying the pages or writing the new document
    throws. *)
Definition slicingFails (env : Env) (file : File) (pageIndices : list Z) : Prop :=
  match file_pdf file with
  | Rejected _ => True
  | Resolved pdfDoc =>
      match copyPages pdfDoc pageIndices with
      | Rejected _ => True
      | Resolved copiedPages =>
          match saveAsBase64 env (foldl (fun doc page => doc ++ [page]) [] copiedPages) with
          | Rejected _ => True
          | Resolved _ => False
          end
      end
  end.

(** The extraction call for chunk [i] with [contents] fails: the client
    throws, or its text is not JSON. *)
Definition callFails (env : Env) (i : nat) (contents : list Part) : Prop :=
  match generateContent env i contents with
  | Rejected _ => True
  | Resolved None => False
  | Resolved (Some []) => False
  | Resolved (Some (c :: t)) =>
      match jsonParse env (c :: t) with
      | Rejected _ => True
      | Resolved _ => False
      end
  end.

(** ** Fixtures *)

(** 수와 연산 *)
Definition fx_unit : jsstring := [0xC218; 0xC640; 0x0020; 0xC5F0; 0xC0B0].

(** [9수01-01] 지수법칙을 이해한다. *)
Definition fx_std_coded : jsstring :=
  [0x005B; 0x0039; 0xC218; 0x0030; 0x0031; 0x002D; 0x0030; 0x0031; 0x005D;
   0x0020; 0xC9C0; 0xC218; 0xBC95; 0xCE59; 0xC744; 0x0020; 0xC774; 0xD574;
   0xD55C; 0xB2E4; 0x002E].

(** 지수법칙을 이해한다. *)
Definition fx_std_plain : jsstring :=
  [0xC9C0; 0xC218; 0xBC95; 0xCE59; 0xC744; 0x0020; 0xC774; 0xD574; 0xD55C;
   0xB2E4; 0x002E].

(** 지수법칙을이해한다. *)
Definition fx_key : jsstring :=
  [0xC9C0; 0xC218; 0xBC95; 0xCE59; 0xC744; 0xC774; 0xD574; 0xD55C; 0xB2E4;
   0x002E].

(** 일차방정식의 풀이 *)
Definition fx_std_noun : jsstring :=
  [0xC77C; 0xCC28; 0xBC29; 0xC815; 0xC2DD; 0xC758; 0x0020; 0xD480; 0xC774].

(** [9수01-02] 일차방정식을 풀 수 있다. *)
Definition fx_std_other : jsstring :=
  [0x005B; 0x0039; 0xC218; 0x0030; 0x0031; 0x002D; 0x0030; 0x0032; 0x005D;
   0x0020; 0xC77C; 0xCC28; 0xBC29; 0xC815; 0xC2DD; 0xC744; 0x0020; 0xD480;
   0x0020; 0xC218; 0x0020; 0xC788; 0xB2E4; 0x002E].

(** [9수01-01] 이해한다. *)
Definition fx_std_short_body : jsstring :=
  [0x005B; 0x0039; 0xC218; 0x0030; 0x0031; 0x002D; 0x0030; 0x0031; 0x005D;
   0x0020; 0xC774; 0xD574; 0xD55C; 0xB2E4; 0x002E].

(** 아ᅢ가나다라마바사다: ten units, the first two the corrupted
    rendering of a middle dot. *)
Definition fx_std_corrupted : jsstring :=
  [0xC544; 0x1162; 0xAC00; 0xB098; 0xB2E4; 0xB77C; 0xB9C8; 0xBC14; 0xC0AC;
   0xB2E4].

Definition fx_coded : Item := candidate fx_unit fx_std_coded [] [] [].
Definition fx_plain : Item := candidate fx_unit fx_std_plain [] [] [].
Definition fx_noun : Item := candidate fx_unit fx_std_noun [] [] [].
Definition fx_other : Item := candidate fx_unit fx_std_other [] [] [].
Definition fx_short_body : Item := candidate fx_unit fx_std_short_body [] [] [].
Definition fx_corrupted : Item := candidate fx_unit fx_std_corrupted [] [] [].

(** A clock that stands still. *)
Definition fx_now : nat -> N := fun _ => 1700000000000.

(** An environment whose extraction service is down. *)
Definition fx_env_down : Env :=
  mkEnv (Some (Js.ofAscii "key"))
        (fun pages => Resolved (Js.ofAscii "JVBERi0="))
        (fun _ _ => Rejected ServiceError)
        (fun _ => Rejected JsonSyntaxError)
        fx_now.

(** A PDF file of two pages, and a file that the PDF library cannot
    open. *)
Definition fx_pdf : File :=
  mkFile mimePdf (Resolved [Js.ofAscii "page 1"; Js.ofAscii "page 2"])
         (Resolved (Js.ofAscii "JVBERi0xLjc=")) (Rejected FileReadError).
Definition fx_pdf_broken : File :=
  mkFile mimePdf (Rejected PdfError)
         (Resolved (Js.ofAscii "JVBERi0xLjc=")) (Rejected FileReadError).

(** ** Further definitions: what the sanitizer is meant to remove *)

(** [s.includes('아ᅢ') || s.includes('･')] *)
Definition hasArtifact (s : jsstring) : bool :=
  Js.includes s [cu_A; cu_AE] || Js.includes s [cu_halfwidth_dot].

(** ** Further definitions: which candidate the deduplication keeps *)

(** The filters accept [item] under the key [k], with [hasCode = h]. *)
Definition acceptsAs (h : bool) (k : jsstring) (item : Item) : bool :=
  match classify item with
  | Accept h' k' => Bool.eqb h h' && Js.eqb k k'
  | Skip => false
  end.

(** The first accepted candidate of key [k] that has a code, and without
    one the first accepted candidate of key [k]. *)
Definition retained (k : jsstring) (items : list Item) : option Item :=
  match List.find (acceptsAs true k) items with
  | Some y => Some y
  | None => List.find (acceptsAs false k) items
  end.

(** The record stored for the key [k]. *)
Definition entry (k : jsstring) (st : DedupState) : option Item :=
  i ← bodyMap st !! k; finalItems st !! i.

(** The state of the loop after the candidates [seen]. *)
Definition dedupAfter (seen : list Item) (st : DedupState) : Prop :=
  dedupOk st /\ forall k, entry k st = retained k seen.

(** What one candidate adds to the sequence of keys. *)
Definition newKey (keys : list jsstring) (item : Item) : list jsstring :=
  match classify item with
  | Accept _ k => if decide (k ∈ keys) then [] else [k]
  | Skip => []
  end.

(** [classify item] is not [Skip]. *)
Definition passes (item : Item) : bool :=
  match classify item with
  | Accept _ _ => true
  | Skip => false
  end.

(** ** Further definitions: the slicing wrapper *)

(** [extractPdfPages]: the slicer applied to the pages a range expression
    selects.  The source returns the slicer's promise from inside the [try]
    without awaiting it, so its [catch] would not see a rejection of that
    promise; the slicer never rejects, and the two readings agree. *)
Definition extractPdfPages (env : Env) (file : File) (pageRange : jsstring)
  : Outcome (option jsstring) :=
  tryCatch
    (pdfDoc ← file_pdf file;
     let totalPages := Z.of_nat (length pdfDoc) in
     let pagesToKeep := parsePageRange pageRange totalPages in
     extractPdfPagesByIndices env file pagesToKeep)
    (fun _ => Resolved None).

(** ** Further definitions: the helpers around the file and the key *)

(** [getApiKey]: the key kept in local storage, or else the one of the
    environment, or else the empty string.  [None] is [null] or
    [undefined]. *)
Definition getApiKeyFrom (storedKey envKey : option jsstring) : jsstring :=
  match storedKey with
  | Some (c :: k) => c :: k
  | _ => match envKey with
         | Some (c :: k) => c :: k
         | _ => []
         end
  end.

(** [requireApiKey]; the alert is left out. *)
Definition requireApiKeyFrom (storedKey envKey : option jsstring) : option jsstring :=
  match getApiKeyFrom storedKey envKey with
  | [] => None
  | key => Some key
  end.

(** [s.split(',')] *)
Fixpoint splitCommaFrom (cur : jsstring) (s : jsstring) : list jsstring :=
  match s with
  | [] => [rev cur]
  | c :: t =>
      if c =? 0x2C then rev cur :: splitCommaFrom [] t
      else splitCommaFrom (c :: cur) t
  end.

Definition splitComma (s : jsstring) : list jsstring := splitCommaFrom [] s.

(** [fileToBase64], given how [readAsDataURL] settles: the second piece of
    the data URL; [None] is [undefined]. *)
Definition fileToBase64 (dataUrl : Outcome jsstring) : Outcome (option jsstring) :=
  result ← dataUrl; Resolved (splitComma result !! 1%nat).

(** [s.endsWith(suffix)] *)
Definition endsWith (s suffix : jsstring) : bool :=
  Js.isPrefixOf (rev suffix) (rev s).

(** [getMimeType], given [file.type] and [file.name]; [toLowerCase] is the
    case mapping of the language. *)
Definition getMimeType (toLowerCase : jsstring -> jsstring) (type name : jsstring)
  : jsstring :=
  match type with
  | _ :: _ => type
  | [] =>
      let name := toLowerCase name in
      if endsWith name (Js.ofAscii ".pdf") then Js.ofAscii "application/pdf"
      else if endsWith name (Js.ofAscii ".txt") then Js.ofAscii "text/plain"
      else if endsWith name (Js.ofAscii ".jpg") || endsWith name (Js.ofAscii ".jpeg")
           then Js.ofAscii "image/jpeg"
      else if endsWith name (Js.ofAscii ".png") then Js.ofAscii "image/png"
      else Js.ofAscii "application/pdf"
  end.

(** ** Further definitions: the semester levels and the caller *)

(** The object parsed from the answer about achievement levels; a level
    may be absent. *)
Record Levels := mkLevels {
  lv_A : option jsstring;
  lv_B : option jsstring;
  lv_C : option jsstring;
  lv_D : option jsstring;
  lv_E : option jsstring
}.

(** [{ A: '', B: '', C: '' }] *)
Definition blankLevels : Levels := mkLevels (Some []) (Some []) (Some []) None None.

(** The contents sent for the semester levels: the sliced document, the
    whole file when slicing gave nothing, or the text. *)
Definition semesterContentParts (env : Env) (file : File) (pageRange : option jsstring)
  : Outcome (list Part) :=
  match Js.eqb (file_mime file) mimePdf, pageRange with
  | true, Some (c :: r) =>
      base64 ← extractPdfPages env file (c :: r);
      match base64 with
      | Some (d :: ata) => Resolved [InlineData mimePdf (d :: ata)]
      | _ => fullBase64 ← file_base64 file;
             Resolved [InlineData mimePdf fullBase64]
      end
  | _, _ =>
      if Js.eqb (file_mime file) mimeText
      then text ← file_text file; Resolved [Text text]
      else data ← file_base64 file; Resolved [InlineData (file_mime file) data]
  end.

(** [generateSemesterStandardsFromDomainFile]; [parseLevels] is [JSON.parse]
    on the answer. *)
Definition generateSemesterStandardsFromDomainFile (env : Env)
    (parseLevels : jsstring -> Outcome Levels) (file : File) (prompt : jsstring)
    (pageRange : option jsstring) : Outcome Levels :=
  match getApiKey env with
  | None => Resolved blankLevels
  | Some [] => Resolved blankLevels
  | Some _ =>
      match semesterContentParts env file pageRange with
      | Rejected _ => Resolved blankLevels
      | Resolved contentParts =>
          tryCatch
            (text ← generateContent env 0 (contentParts ++ [Text prompt]);
             match text with
             | None => Resolved blankLevels
             | Some [] => Resolved blankLevels
             | Some t => parseLevels t
             end)
            (fun _ => Resolved blankLevels)
      end
  end.

(** The part of the plan data that the analysis touches. *)
Record Standards := mkStandards {
  std_A : jsstring;
  std_B : jsstring;
  std_C : jsstring;
  std_D : jsstring;
  std_E : jsstring
}.

Inductive Scale := Scale3 | Scale5.

Record PlanData := mkPlanData {
  teachingPlans : list Item;
  achievementStandards : Standards;
  achievementScale : Scale
}.

(** A text that is present and not empty. *)
Definition truthy (o : option jsstring) : bool :=
  match o with
  | Some (_ :: _) => true
  | _ => false
  end.

(** [promise.catch(err => null)] *)
Definition catchNull {A} (p : Outcome A) : option A :=
  match p with
  | Resolved a => Some a
  | Rejected _ => None
  end.

(** "1. Apply Plans" *)
Definition applyPlans (plans : list Item) (newPlans : option (list Item)) : list Item :=
  match newPlans with
  | Some (p :: ps) => plans ++ p :: ps
  | _ => plans
  end.

(** "2. Apply Standards" *)
Definition applyStandards (scale : Scale) (old : Standards) (stdResult : option Levels)
  : Standards :=
  match stdResult with
  | Some r =>
      if truthy (lv_A r) || truthy (lv_B r) || truthy (lv_C r) then
        let a := if truthy (lv_A r) then default [] (lv_A r) else std_A old in
        let b := if truthy (lv_B r) then default [] (lv_B r) else std_B old in
        let c := if truthy (lv_C r) then default [] (lv_C r) else std_C old in
        match scale with
        | Scale5 =>
            let d := if truthy (lv_D r) then default [] (lv_D r) else std_D old in
            let e := if truthy (lv_E r) then default [] (lv_E r) else std_E old in
            mkStandards a b c d e
        | Scale3 => mkStandards a b c (std_D old) (std_E old)
        end
      else old
  | None => old
  end.

(** [stdPageRange.trim() ? stdPageRange : planPageRange] *)
Definition effectiveStdPageRange (stdPageRange planPageRange : jsstring) : jsstring :=
  match Js.trim stdPageRange with
  | [] => planPageRange
  | _ => stdPageRange
  end.

(** [handleUnifiedAnalysis]: the data handed to [onChange], or [None] when
    the handler returns before the analysis (no file, no subject, or the
    user did not confirm).  The two prompts stand for the instruction
    texts built from subject, grade and content scopes. *)
Definition handleUnifiedAnalysis (env : Env) (parseLevels : jsstring -> Outcome Levels)
    (data : PlanData) (file : option File) (subject : jsstring) (confirmed : bool)
    (planPrompt stdPrompt planPageRange stdPageRange : jsstring) : option PlanData :=
  match file, subject, confirmed with
  | Some file, _ :: _, true =>
      let newPlans :=
        catchNull (parseStandardsAndGeneratePlan env file planPrompt (Some planPageRange)) in
      let stdResult :=
        catchNull (generateSemesterStandardsFromDomainFile env parseLevels file stdPrompt
                     (Some (effectiveStdPageRange stdPageRange planPageRange))) in
      Some (mkPlanData (applyPlans (teachingPlans data) newPlans)
                       (applyStandards (achievementScale data)
                                       (achievementStandards data) stdResult)
                       (achievementScale data))
  | _, _, _ => None
  end.

(** * Properties *)

(** ** TextSanitizer *)

Section Sanitizer.

Lemma replaceCorrupted_eq a b t :
  replaceCorrupted (a :: b :: t)
  = if (a =? cu_A) && (b =? cu_AE)
    then cu_middle_dot :: replaceCorrupted t
    else a :: replaceCorrupted (b :: t).
Proof. reflexivity. Qed.

Lemma replaceCorrupted_cons_other a r :
  a ≠ cu_A -> replaceCorrupted (a :: r) = a :: replaceCorrupted r.
Proof.
  intros Ha. destruct r as [|b t]; [reflexivity|]. simpl.
  destruct (N.eqb_spec a cu_A); [contradiction|reflexivity].
Qed.

Lemma replaceCorrupted_cons_next a b t :
  b ≠ cu_AE -> replaceCorrupted (a :: b :: t) = a :: replaceCorrupted (b :: t).
Proof.
  intros Hb. rewrite replaceCorrupted_eq.
  destruct (N.eqb_spec b cu_AE); [contradiction|].
  now rewrite andb_false_r.
Qed.

(** The first unit of a rewritten string is its old first unit or a
    middle dot. *)
Lemma replaceCorrupted_head b t :
  exists c rest, replaceCorrupted (b :: t) = c :: rest
                 /\ (c = b \/ c = cu_middle_dot).
Proof.
  destruct t as [|b' t']; [by exists b, []; auto|].
  rewrite replaceCorrupted_eq.
  destruct ((b =? cu_A) && (b' =? cu_AE)); eauto.
Qed.

Lemma replaceCorrupted_idem_bounded n : forall s,
  (length s <= n)%nat -> replaceCorrupted (replaceCorrupted s) = replaceCorrupted s.
Proof.
  induction n as [|n IH]; intros s Hn.
  - destruct s; [reflexivity | simpl in Hn; lia].
  - destruct s as [|a [|b t]]; [reflexivity | reflexivity |].
    simpl in Hn. rewrite replaceCorrupted_eq.
    destruct ((a =? cu_A) && (b =? cu_AE)) eqn:Hm.
    + rewrite replaceCorrupted_cons_other by (unfold cu_middle_dot, cu_A; lia).
      rewrite IH by lia. reflexivity.
    + destruct (replaceCorrupted_head b t) as (c & rest & Hc & Hor).
      assert (Hrec : replaceCorrupted (replaceCorrupted (b :: t))
                     = replaceCorrupted (b :: t)) by (apply IH; simpl; lia).
      destruct (N.eqb_spec a cu_A) as [->|Ha].
      * simpl in Hm. apply N.eqb_neq in Hm.
        rewrite Hc in *. rewrite replaceCorrupted_cons_next.
        { now rewrite Hrec. }
        destruct Hor as [->| ->]; [assumption | unfold cu_middle_dot, cu_AE; lia].
      * rewrite replaceCorrupted_cons_other by assumption. now rewrite Hrec.
Qed.

Lemma replaceCorrupted_idem s :
  replaceCorrupted (replaceCorrupted s) = replaceCorrupted s.
Proof. exact (replaceCorrupted_idem_bounded (length s) s (le_n _)). Qed.

Lemma replaceHalfwidthDot_idem s :
  replaceHalfwidthDot (replaceHalfwidthDot s) = replaceHalfwidthDot s.
Proof.
  unfold replaceHalfwidthDot. rewrite map_map. apply map_ext. intros c.
  destruct (N.eqb_spec c cu_halfwidth_dot); [reflexivity|].
  destruct (N.eqb_spec c cu_halfwidth_dot); [contradiction | reflexivity].
Qed.

(** Turning halfwidth dots into middle dots neither makes nor breaks an
    occurrence of the corrupted pair. *)
Lemma replaceCorrupted_halfwidth_bounded n : forall s,
  (length s <= n)%nat ->
  replaceCorrupted (replaceHalfwidthDot s) = replaceHalfwidthDot (replaceCorrupted s).
Proof.
  induction n as [|n IH]; intros s Hn.
  - destruct s; [reflexivity | simpl in Hn; lia].
  - destruct s as [|a [|b t]]; [reflexivity | reflexivity |].
    simpl in Hn.
    change (replaceHalfwidthDot (a :: b :: t))
      with ((if a =? cu_halfwidth_dot then cu_middle_dot else a)
            :: (if b =? cu_halfwidth_dot then cu_middle_dot else b)
            :: replaceHalfwidthDot t).
    rewrite !replaceCorrupted_eq.
    assert (Ha : ((if a =? cu_halfwidth_dot then cu_middle_dot else a) =? cu_A)
                 = (a =? cu_A)).
    { destruct (N.eqb_spec a cu_halfwidth_dot) as [->|]; reflexivity. }
    assert (Hb : ((if b =? cu_halfwidth_dot then cu_middle_dot else b) =? cu_AE)
                 = (b =? cu_AE)).
    { destruct (N.eqb_spec b cu_halfwidth_dot) as [->|]; reflexivity. }
    rewrite Ha, Hb.
    destruct ((a =? cu_A) && (b =? cu_AE)) eqn:Hm.
    + rewrite IH by lia.
      apply andb_prop in Hm as [Ha' _]. apply N.eqb_eq in Ha'. subst a.
      reflexivity.
    + change ((if b =? cu_halfwidth_dot then cu_middle_dot else b)
              :: replaceHalfwidthDot t) with (replaceHalfwidthDot (b :: t)).
      rewrite IH by (simpl; lia). reflexivity.
Qed.

Lemma replaceCorrupted_halfwidth s :
  replaceCorrupted (replaceHalfwidthDot s) = replaceHalfwidthDot (replaceCorrupted s).
Proof. exact (replaceCorrupted_halfwidth_bounded (length s) s (le_n _)). Qed.

Lemma sanitizeText_Some s : sanitizeText (Some s) = sanitizeString s.
Proof. destruct s; reflexivity. Qed.

Lemma sanitizeString_idem s : sanitizeString (sanitizeString s) = sanitizeString s.
Proof.
  unfold sanitizeString.
  rewrite !replaceCorrupted_halfwidth, replaceCorrupted_idem.
  now rewrite !replaceHalfwidthDot_idem.
Qed.

Lemma sanitizeText_idem (x : option jsstring) :
  sanitizeText (Some (sanitizeText x)) = sanitizeText x.
Proof.
  destruct x as [s|]; [|reflexivity].
  rewrite !sanitizeText_Some. apply sanitizeString_idem.
Qed.

End Sanitizer.

(** C8.  The sanitizer is idempotent: sanitizing the text it returned gives
    that text again, for every string and for an absent field as well. *)
Theorem sanitizeText_idempotent (x : option jsstring) :
  sanitizeText (Some (sanitizeText x)) = sanitizeText x.
Proof. exact (sanitizeText_idem x). Qed.

(** ** ChunkScheduler: the grouping *)

Section Chunking.

Variable K : nat.
Hypothesis K_pos : (0 < K)%nat.

Lemma slice_stride (l : list Z) i : slice l i (i + K) = take K (drop i l).
Proof. unfold slice. f_equal. lia. Qed.

Lemma chunks_nil_spec (l : list Z) i :
  (length l <= i)%nat ->
  Some [] = Some ([] : list (list Z))
  /\ concat [] = drop i l
  /\ Forall (fun c : list Z => (0 < length c <= K)%nat) []
  /\ (([] : list (list Z)) ≠ [] -> (i < length l)%nat)
  /\ (forall j (c : list Z), ([] : list (list Z)) !! j = Some c ->
        (S j < length ([] : list (list Z)))%nat -> length c = K).
Proof.
  intros Hge. refine (conj eq_refl (conj _ (conj _ (conj _ _)))).
  - symmetry. apply drop_ge. lia.
  - constructor.
  - congruence.
  - intros j c Hj. rewrite lookup_nil in Hj. discriminate.
Qed.

(** What the loop has pushed from index [i] on, when it is given at least
    as many iterations as there are indices left. *)
Lemma chunkLoop_spec (l : list Z) : forall fuel i,
  (length l - i <= fuel)%nat ->
  exists chunks,
    chunkLoop K l fuel i = Some chunks
    /\ concat chunks = drop i l
    /\ Forall (fun c => (0 < length c <= K)%nat) chunks
    /\ (chunks ≠ [] -> (i < length l)%nat)
    /\ (forall j c, chunks !! j = Some c -> (S j < length chunks)%nat ->
                    length c = K).
Proof.
  induction fuel as [|fuel IH]; intros i Hfuel.
  - exists []. simpl.
    destruct (Nat.ltb_spec i (length l)); [lia|].
    apply chunks_nil_spec. lia.
  - cbn [chunkLoop].
    destruct (Nat.ltb_spec i (length l)) as [Hlt|Hge].
    + destruct (IH (i + K)%nat) as (rest & Hrest & Hcat & Hall & Hne & Hfull); [lia|].
      exists (slice l i (i + K) :: rest). rewrite Hrest.
      assert (Hlen : length (slice l i (i + K)) = Nat.min K (length l - i)).
      { rewrite slice_stride, length_take, length_drop. reflexivity. }
      refine (conj eq_refl (conj _ (conj _ (conj _ _)))).
      * cbn [concat]. rewrite Hcat, slice_stride.
        rewrite <- (take_drop K (drop i l)) at 2. rewrite drop_drop. reflexivity.
      * constructor; [lia | assumption].
      * intros _. assumption.
      * intros [|j] c Hj Hlast.
        -- injection Hj as <-. rewrite Hlen.
           assert (rest ≠ []) as Hr by (destruct rest; [simpl in Hlast; lia | discriminate]).
           specialize (Hne Hr). lia.
        -- apply (Hfull j c Hj). simpl in Hlast. lia.
    + exists []. apply chunks_nil_spec. lia.
Qed.

End Chunking.

(** With the chunk size of the scheduler the model of the loop never runs
    out of fuel. *)
Lemma chunkIndices_CHUNK_SIZE_total (requestedIndices : list Z) :
  chunkIndices CHUNK_SIZE requestedIndices ≠ None.
Proof.
  destruct (chunkLoop_spec CHUNK_SIZE ltac:(unfold CHUNK_SIZE; lia)
              requestedIndices (length requestedIndices) 0)
    as (chunks & Hrun & _); [lia|].
  unfold chunkIndices. now rewrite Hrun.
Qed.

(** C7.  For every index sequence and every chunk size [K > 0] the grouping
    loop ends and its groups, taken in order, are exactly the sequence: no
    index is left out or repeated.  Every group has between one and [K]
    indices, and every group but the last has [K]. *)
Theorem chunkIndices_partition (K : nat) (requestedIndices : list Z) :
  (0 < K)%nat ->
  exists chunks,
    chunkIndices K requestedIndices = Some chunks
    /\ concat chunks = requestedIndices
    /\ Forall (fun c => (0 < length c <= K)%nat) chunks
    /\ (forall j c, chunks !! j = Some c -> (S j < length chunks)%nat ->
                    length c = K).
Proof.
  intros HK.
  destruct (chunkLoop_spec K HK requestedIndices (length requestedIndices) 0)
    as (chunks & Hrun & Hcat & Hall & _ & Hfull); [lia|].
  exists chunks. rewrite drop_0 in Hcat. auto.
Qed.

Lemma chunkIndices_partition_witness :
  exists chunks,
    chunkIndices CHUNK_SIZE [0; 1; 2; 3; 4; 5; 6]%Z = Some chunks
    /\ concat chunks = [0; 1; 2; 3; 4; 5; 6]%Z
    /\ Forall (fun c => (0 < length c <= CHUNK_SIZE)%nat) chunks
    /\ (forall j c, chunks !! j = Some c -> (S j < length chunks)%nat ->
                    length c = CHUNK_SIZE).
Proof. apply (chunkIndices_partition CHUNK_SIZE); unfold CHUNK_SIZE; lia. Defined.

(** ** PageRangeParser *)

Section PageRange.

Variable totalPages : Z.

Lemma setAdd_ok x pages :
  (0 <= x < totalPages)%Z -> pagesOk totalPages pages -> pagesOk totalPages (setAdd x pages).
Proof.
  intros Hx [Hnd Hall]. unfold setAdd.
  destruct (decide (x ∈ pages)) as [Hin|Hnin]; [split; assumption|].
  split.
  - apply NoDup_app. repeat split; [assumption | | apply NoDup_singleton].
    intros y Hy Hy'. apply list_elem_of_singleton in Hy'. subst y. contradiction.
  - apply Forall_app. split; [assumption | by constructor].
Qed.

Lemma addRange_ok s e pages :
  (1 <= s)%Z -> (e <= totalPages)%Z -> pagesOk totalPages pages -> pagesOk totalPages (addRange s e pages).
Proof.
  intros Hs He. unfold addRange.
  assert (Hin : Forall (fun i => s <= i <= e)%Z (seqZ s (e - s + 1))).
  { apply Forall_forall. intros i Hi. apply elem_of_seqZ in Hi. lia. }
  revert pages. induction Hin as [|i is_ Hi _ IH]; intros pages Hok; [assumption|].
  cbn [foldl]. apply IH. apply setAdd_ok; [lia | assumption].
Qed.

Lemma addPart_ok pages part : pagesOk totalPages pages -> pagesOk totalPages (addPart totalPages pages part).
Proof.
  intros Hok. unfold addPart.
  destruct (Js.trim part) as [|c t] eqn:Htrim; [assumption|].
  destruct (Js.includes (c :: t) [45%N]).
  - destruct (splitDash (c :: t)) as [|startStr [|endStr rest]]; try assumption.
    destruct (parseInt startStr) as [start|]; [|assumption].
    destruct (parseInt endStr) as [end_|]; [|assumption].
    apply addRange_ok; [lia | lia | assumption].
  - destruct (parseInt (c :: t)) as [page|]; [|assumption].
    destruct (Z.leb_spec 1 page); [|assumption].
    destruct (Z.leb_spec page totalPages); [|assumption].
    apply setAdd_ok; [lia | assumption].
Qed.

Lemma foldl_addPart_ok parts : forall pages,
  pagesOk totalPages pages -> pagesOk totalPages (foldl (addPart totalPages) pages parts).
Proof.
  induction parts as [|part parts IH]; intros pages Hok; [assumption|].
  cbn [foldl]. apply IH, addPart_ok, Hok.
Qed.

End PageRange.

(** A list without repetition that is sorted for [<=] is sorted for [<]. *)
Lemma StronglySorted_le_lt (l : list Z) :
  NoDup l -> StronglySorted Z.le l -> StronglySorted Z.lt l.
Proof.
  induction 2 as [|x l Hs IH Hall]; [constructor|].
  apply NoDup_cons in H as [Hx Hnd].
  constructor; [by apply IH|].
  apply Forall_forall. intros y Hy.
  rewrite Forall_forall in Hall. specialize (Hall y Hy).
  assert (x ≠ y) by (intros ->; contradiction). lia.
Qed.

(** C5.  For every range expression and every page count, the parser
    returns only indices [i] with [0 <= i < totalPages], none of them twice,
    in strictly ascending order. *)
Theorem parsePageRange_sound (rangeStr : jsstring) (totalPages : Z) :
  Forall (fun i => 0 <= i < totalPages)%Z (parsePageRange rangeStr totalPages)
  /\ NoDup (parsePageRange rangeStr totalPages)
  /\ StronglySorted Z.lt (parsePageRange rangeStr totalPages).
Proof.
  unfold parsePageRange.
  set (pages := foldl (addPart totalPages) [] (splitRange rangeStr)).
  assert (Hok : pagesOk totalPages pages).
  { apply foldl_addPart_ok. split; constructor. }
  destruct Hok as [Hnd Hall].
  assert (Hperm : merge_sort Z.le pages ≡ₚ pages) by apply merge_sort_Permutation.
  assert (Hnd' : NoDup (merge_sort Z.le pages)) by (by rewrite Hperm).
  repeat split.
  - by rewrite Hperm.
  - assumption.
  - apply StronglySorted_le_lt; [assumption|].
    apply StronglySorted_merge_sort; apply _.
Qed.

(** The examples of the parser's contract. *)
Example parsePageRange_list :
  parsePageRange (Js.ofAscii "1, 3-5") 10 = [0; 2; 3; 4]%Z.
Proof. vm_compute. reflexivity. Qed.

Example parsePageRange_out_of_bounds : parsePageRange (Js.ofAscii "0, 99") 10 = [].
Proof. vm_compute. reflexivity. Qed.

Example parsePageRange_reversed_and_repeated :
  parsePageRange (Js.ofAscii "5-3 2,2  7- x") 10 = [1; 2; 3; 4]%Z.
Proof. vm_compute. reflexivity. Qed.

Lemma parsePageRange_empty (totalPages : Z) : parsePageRange [] totalPages = [].
Proof. reflexivity. Qed.

(** ** ResultConsolidator: the code test before and after the cleanup *)

Section CodeTest.

Lemma whiteSpace_not_bracket c :
  Js.isWhiteSpace c = true -> c ≠ cu_lbracket /\ c ≠ cu_rbracket.
Proof. split; intros ->; vm_compute in H; discriminate. Qed.

Lemma marker_not_lbracket c : isMarker c = true -> c ≠ cu_lbracket.
Proof. intros H ->. vm_compute in H. discriminate. Qed.

Lemma codeAt_other c t : c ≠ cu_lbracket -> codeAt (c :: t) = None.
Proof.
  intros Hc. destruct t as [|c1 t]; [reflexivity|]. cbn [codeAt].
  destruct (N.eqb_spec c cu_lbracket); [contradiction | reflexivity].
Qed.

Lemma testCode_cons_other c t : c ≠ cu_lbracket -> testCode (c :: t) = testCode t.
Proof. intros Hc. cbn [testCode]. now rewrite codeAt_other. Qed.

Lemma testCode_dropWhile p s :
  (forall c, p c = true -> c ≠ cu_lbracket) ->
  testCode (Js.dropWhile p s) = testCode s.
Proof.
  intros Hp. induction s as [|c t IH]; [reflexivity|]. cbn [Js.dropWhile].
  destruct (p c) eqn:Hc; [|reflexivity].
  rewrite IH. symmetry. apply testCode_cons_other. auto.
Qed.

Lemma afterClose_snoc s c :
  c ≠ cu_rbracket -> afterClose (s ++ [c]) = (fun r => r ++ [c]) <$> afterClose s.
Proof.
  intros Hc. induction s as [|a t IH]; cbn [afterClose app].
  - destruct (N.eqb_spec c cu_rbracket); [contradiction | reflexivity].
  - destruct (a =? cu_rbracket); [reflexivity | exact IH].
Qed.

Lemma codeAt_snoc s c :
  c ≠ cu_rbracket -> codeAt (s ++ [c]) = (fun r => r ++ [c]) <$> codeAt s.
Proof.
  intros Hc. destruct s as [|c0 [|c1 t]]; cbn [codeAt app].
  - reflexivity.
  - destruct ((c0 =? cu_lbracket) && negb (c =? cu_rbracket)); reflexivity.
  - destruct ((c0 =? cu_lbracket) && negb (c1 =? cu_rbracket)); [|reflexivity].
    now apply afterClose_snoc.
Qed.

Lemma testCode_snoc s c : c ≠ cu_rbracket -> testCode (s ++ [c]) = testCode s.
Proof.
  intros Hc. induction s as [|a t IH].
  - cbn. destruct (N.eqb_spec c cu_rbracket); reflexivity.
  - change ((a :: t) ++ [c]) with (a :: (t ++ [c])).
    cbn [testCode]. change (a :: (t ++ [c])) with ((a :: t) ++ [c]).
    rewrite codeAt_snoc by assumption.
    destruct (codeAt (a :: t)); [reflexivity | exact IH].
Qed.

Lemma testCode_trimEnd s : testCode (Js.trimEnd s) = testCode s.
Proof.
  unfold Js.trimEnd. rewrite <- (rev_involutive s) at 2.
  induction (rev s) as [|c r IH]; [reflexivity|]. cbn [Js.dropWhile].
  destruct (Js.isWhiteSpace c) eqn:Hc; [|reflexivity].
  rewrite IH. cbn [rev]. symmetry. apply testCode_snoc.
  now apply whiteSpace_not_bracket.
Qed.

Lemma testCode_trim s : testCode (Js.trim s) = testCode s.
Proof.
  unfold Js.trim, Js.trimStart. rewrite testCode_trimEnd.
  apply testCode_dropWhile. intros c Hc. now apply whiteSpace_not_bracket.
Qed.

Lemma testCode_stripMarker s : testCode (stripMarker s) = testCode s.
Proof.
  destruct s as [|c t]; [reflexivity|]. cbn [stripMarker].
  destruct (isMarker c) eqn:Hc; [|reflexivity].
  rewrite testCode_dropWhile by (intros c' Hc'; now apply whiteSpace_not_bracket).
  symmetry. apply testCode_cons_other. now apply marker_not_lbracket.
Qed.

(** The test made on a stored record, on its raw standard text, agrees
    with the test made on the cleaned text when the record came in. *)
Lemma testCode_stored item :
  testCode (default undefinedText (item_standard item)) = testCode (stdTextOf item).
Proof.
  unfold stdTextOf. rewrite testCode_stripMarker, testCode_trim.
  destruct (item_standard item); reflexivity.
Qed.

End CodeTest.

(** ** ResultConsolidator: the deduplication loop *)

Section Dedup.

Lemma classify_Accept item h k :
  classify item = Accept h k ->
  h = testCode (stdTextOf item) /\ k = keyOf item
  /\ (10 <= length (stdTextOf item))%nat.
Proof.
  unfold classify, keyOf.
  destruct (Nat.ltb_spec (length (stdTextOf item)) 10); [discriminate|].
  destruct (existsb _ headers); [discriminate|].
  destruct (_ && _); [discriminate|].
  destruct (unitEcho _ _); [discriminate|].
  intros [= <- <-]. auto.
Qed.

Lemma dedupStep_skip st item : classify item = Skip -> dedupStep st item = Some st.
Proof. unfold dedupStep. now intros ->. Qed.

Lemma dedupStep_new st item h k :
  classify item = Accept h k -> bodyMap st !! k = None ->
  dedupStep st item
  = Some (mkDedup (finalItems st ++ [item])
                  (<[k := length (finalItems st)]> (bodyMap st))).
Proof. unfold dedupStep. now intros -> ->. Qed.

Lemma dedupStep_seen st item h k i x :
  classify item = Accept h k -> bodyMap st !! k = Some i ->
  finalItems st !! i = Some x ->
  dedupStep st item
  = Some (if negb (testCode (stdTextOf x)) && h
          then mkDedup (<[i := item]> (finalItems st)) (bodyMap st)
          else st).
Proof.
  unfold dedupStep. intros -> -> Hx. rewrite Hx. cbn.
  rewrite testCode_stored. now destruct (negb _ && h).
Qed.

Lemma dedupOk_empty : dedupOk emptyDedup.
Proof.
  intros k i. cbn. rewrite lookup_empty, lookup_nil. split; discriminate.
Qed.

Lemma dedupOk_entry st k i :
  dedupOk st -> bodyMap st !! k = Some i ->
  exists x, finalItems st !! i = Some x /\ keyOf x = k.
Proof.
  intros Hok Hk. apply Hok in Hk. rewrite list_lookup_fmap in Hk.
  destruct (finalItems st !! i) as [x|]; [|discriminate].
  injection Hk as <-. eauto.
Qed.

Lemma dedupOk_new st item :
  dedupOk st -> bodyMap st !! keyOf item = None ->
  dedupOk (mkDedup (finalItems st ++ [item])
                   (<[keyOf item := length (finalItems st)]> (bodyMap st))).
Proof.
  intros Hok Hnone k i. cbn [finalItems bodyMap].
  rewrite fmap_app. cbn [fmap list_fmap].
  assert (Hlen : length (keyOf <$> finalItems st) = length (finalItems st))
    by apply length_fmap.
  destruct (decide (k = keyOf item)) as [->|Hne].
  - rewrite lookup_insert_eq. split.
    + intros [= <-]. rewrite lookup_app_r by lia. rewrite Hlen, Nat.sub_diag.
      reflexivity.
    + intros Hi. destruct (Nat.lt_ge_cases i (length (finalItems st))) as [Hlt|Hge].
      * rewrite lookup_app_l in Hi by lia. apply Hok in Hi. congruence.
      * apply lookup_lt_Some in Hi. rewrite length_app in Hi. simpl in Hi.
        f_equal. lia.
  - rewrite lookup_insert_ne by congruence. rewrite (Hok k i). split.
    + intros Hi. rewrite lookup_app_l; [assumption|].
      now apply lookup_lt_Some in Hi.
    + intros Hi. destruct (Nat.lt_ge_cases i (length (finalItems st))) as [Hlt|Hge].
      * now rewrite lookup_app_l in Hi by lia.
      * rewrite lookup_app_r in Hi by lia.
        destruct (i - length (keyOf <$> finalItems st))%nat; [|discriminate].
        cbn in Hi. congruence.
Qed.

Lemma dedupOk_replace st item i :
  dedupOk st -> bodyMap st !! keyOf item = Some i ->
  dedupOk (mkDedup (<[i := item]> (finalItems st)) (bodyMap st)).
Proof.
  intros Hok Hi k j. cbn [finalItems bodyMap].
  rewrite list_fmap_insert, list_insert_id; [apply Hok|].
  now apply Hok.
Qed.

(** A step never fails on a state that satisfies the invariant, and keeps
    the invariant. *)
Lemma dedupStep_ok st item :
  dedupOk st -> exists st', dedupStep st item = Some st' /\ dedupOk st'.
Proof.
  intros Hok. destruct (classify item) as [|h k] eqn:Hc.
  - exists st. split; [now apply dedupStep_skip | assumption].
  - destruct (classify_Accept _ _ _ Hc) as (_ & -> & _).
    destruct (bodyMap st !! keyOf item) as [i|] eqn:Hk.
    + destruct (dedupOk_entry st _ i Hok Hk) as (x & Hx & _).
      rewrite (dedupStep_seen st item h _ i x Hc Hk Hx).
      destruct (negb _ && h); eexists; split; try reflexivity; [|assumption].
      now apply dedupOk_replace.
    + rewrite (dedupStep_new st item h _ Hc Hk).
      eexists; split; [reflexivity|]. now apply dedupOk_new.
Qed.

Lemma dedupLoop_ok items : forall st,
  dedupOk st -> exists st', dedupLoop st items = Some st' /\ dedupOk st'.
Proof.
  induction items as [|item rest IH]; intros st Hok; [by exists st|].
  destruct (dedupStep_ok st item Hok) as (st1 & Hstep & Hok1).
  cbn [dedupLoop]. rewrite Hstep. cbn. now apply IH.
Qed.

Lemma dedupLoop_app l1 l2 st :
  dedupLoop st (l1 ++ l2) = dedupLoop st l1 ≫= fun st1 => dedupLoop st1 l2.
Proof.
  revert st. induction l1 as [|x l1 IH]; intros st; [reflexivity|].
  cbn [dedupLoop app]. destruct (dedupStep st x) as [st1|]; [|reflexivity].
  cbn. apply IH.
Qed.

Lemma dedupOk_NoDup st : dedupOk st -> NoDup (keyOf <$> finalItems st).
Proof.
  intros Hok. apply NoDup_alt. intros i j k Hi Hj.
  apply Hok in Hi, Hj. congruence.
Qed.

(** The loop never raises the type error, so the consolidator always
    returns a list. *)
Lemma accepted_total items :
  exists fin, accepted items = Some fin /\ NoDup (keyOf <$> fin).
Proof.
  destruct (dedupLoop_ok items emptyDedup dedupOk_empty) as (st & Hrun & Hok).
  exists (finalItems st). unfold accepted. rewrite Hrun. split; [reflexivity|].
  now apply dedupOk_NoDup.
Qed.

End Dedup.

(** C10.  For every candidate list the consolidator returns a list, and the
    records it accepted, whose sanitized and numbered copies make up that
    list in the same order, have pairwise different NormalizedKeys. *)
Theorem consolidate_keys_unique (now : nat -> N) (allItems : list Item) :
  exists fin,
    accepted allItems = Some fin
    /\ consolidate now allItems = Some (imap (finalize now) fin)
    /\ NoDup (keyOf <$> fin)
    /\ (forall i j x y, fin !! i = Some x -> fin !! j = Some y ->
                        keyOf x = keyOf y -> i = j).
Proof.
  destruct (accepted_total allItems) as (fin & Hacc & Hnd).
  exists fin. unfold consolidate. rewrite Hacc.
  repeat split; auto.
  intros i j x y Hi Hj Hk.
  apply (proj1 (NoDup_alt _) Hnd i j (keyOf x)); rewrite list_lookup_fmap.
  - now rewrite Hi.
  - rewrite Hj. cbn. now rewrite Hk.
Qed.

(** ** ResultConsolidator: candidates of other keys leave a record alone *)

Section Frame.

Lemma dedupStep_frame st st' item k :
  dedupOk st -> (forall h, classify item ≠ Accept h k) ->
  dedupStep st item = Some st' ->
  bodyMap st' !! k = bodyMap st !! k
  /\ (forall i, bodyMap st !! k = Some i ->
                finalItems st' !! i = finalItems st !! i).
Proof.
  intros Hok Hk Hstep. destruct (classify item) as [|h k'] eqn:Hc.
  - rewrite dedupStep_skip in Hstep by assumption. injection Hstep as <-. auto.
  - assert (Hne : k' ≠ k) by (intros ->; exact (Hk h eq_refl)).
    destruct (classify_Accept _ _ _ Hc) as (_ & Hk' & _).
    destruct (bodyMap st !! k') as [j|] eqn:Hj.
    + destruct (dedupOk_entry st k' j Hok Hj) as (x & Hx & _).
      rewrite (dedupStep_seen st item h k' j x Hc Hj Hx) in Hstep.
      injection Hstep as <-.
      destruct (negb _ && h); [|auto]. cbn [bodyMap finalItems].
      split; [reflexivity|]. intros i Hi.
      apply list_lookup_insert_ne. intros ->.
      apply Hok in Hi, Hj. congruence.
    + rewrite (dedupStep_new st item h k' Hc Hj) in Hstep.
      injection Hstep as <-. cbn [bodyMap finalItems].
      split; [now apply lookup_insert_ne|].
      intros i Hi. apply lookup_app_l.
      destruct (dedupOk_entry st k i Hok Hi) as (x & Hx & _).
      now apply lookup_lt_Some in Hx.
Qed.

Lemma dedupLoop_frame items k : forall st st',
  dedupOk st -> keyAbsent k items -> dedupLoop st items = Some st' ->
  bodyMap st' !! k = bodyMap st !! k
  /\ (forall i, bodyMap st !! k = Some i ->
                finalItems st' !! i = finalItems st !! i).
Proof.
  induction items as [|item rest IH]; intros st st' Hok Habs Hrun.
  - injection Hrun as <-. auto.
  - apply Forall_cons in Habs as [Hitem Hrest]. cbn [dedupLoop] in Hrun.
    destruct (dedupStep_ok st item Hok) as (st1 & Hstep & Hok1).
    rewrite Hstep in Hrun. cbn in Hrun.
    destruct (dedupStep_frame st st1 item k Hok Hitem Hstep) as [Hm1 Hf1].
    destruct (IH st1 st' Hok1 Hrest Hrun) as [Hm Hf].
    split; [congruence|].
    intros i Hi. rewrite Hf by congruence. now apply Hf1.
Qed.

(** Two accepted candidates of one key, among candidates of other keys:
    the slot opened by the first holds the second when only the second
    has a code, and the first otherwise. *)
Lemma dedup_pair l1 l2 l3 first second h1 h2 k :
  classify first = Accept h1 k -> classify second = Accept h2 k ->
  keyAbsent k l1 -> keyAbsent k l2 -> keyAbsent k l3 ->
  exists fin1 fin,
    accepted l1 = Some fin1
    /\ accepted (l1 ++ first :: l2 ++ second :: l3) = Some fin
    /\ fin !! length fin1 = Some (if negb h1 && h2 then second else first).
Proof.
  intros Hc1 Hc2 Ha1 Ha2 Ha3.
  destruct (classify_Accept _ _ _ Hc1) as (Hh1 & Hk1 & _).
  destruct (dedupLoop_ok l1 emptyDedup dedupOk_empty) as (st1 & Hrun1 & Hok1).
  destruct (dedupLoop_frame l1 k _ _ dedupOk_empty Ha1 Hrun1) as [Hm1 _].
  cbn in Hm1. rewrite lookup_empty in Hm1.
  pose proof (dedupStep_new st1 first h1 k Hc1 Hm1) as Hstep2.
  set (pos := length (finalItems st1)) in *.
  set (st2 := mkDedup (finalItems st1 ++ [first]) (<[k := pos]> (bodyMap st1))) in *.
  assert (Hok2 : dedupOk st2).
  { subst st2 pos. rewrite Hk1. apply dedupOk_new; [assumption | now rewrite <- Hk1]. }
  assert (Hm2 : bodyMap st2 !! k = Some pos) by apply lookup_insert_eq.
  assert (Hf2 : finalItems st2 !! pos = Some first).
  { subst st2 pos. cbn. rewrite lookup_app_r by lia. now rewrite Nat.sub_diag. }
  destruct (dedupLoop_ok l2 st2 Hok2) as (st3 & Hrun3 & Hok3).
  destruct (dedupLoop_frame l2 k _ _ Hok2 Ha2 Hrun3) as [Hm3 Hf3].
  rewrite Hm2 in Hm3. rewrite <- (Hf3 pos Hm2) in Hf2.
  pose proof (dedupStep_seen st3 second h2 k pos first Hc2 Hm3 Hf2) as Hstep4.
  rewrite <- Hh1 in Hstep4.
  destruct (dedupStep_ok st3 second Hok3) as (st4 & Hstep4' & Hok4).
  rewrite Hstep4 in Hstep4'. injection Hstep4' as Hst4.
  assert (Hm4 : bodyMap st4 !! k = Some pos).
  { subst st4. now destruct (negb h1 && h2). }
  assert (Hf4 : finalItems st4 !! pos = Some (if negb h1 && h2 then second else first)).
  { subst st4. destruct (negb h1 && h2); [|assumption]. cbn.
    apply list_lookup_insert_eq. now apply lookup_lt_Some in Hf2. }
  destruct (dedupLoop_ok l3 st4 Hok4) as (st5 & Hrun5 & Hok5).
  destruct (dedupLoop_frame l3 k _ _ Hok4 Ha3 Hrun5) as [_ Hf5].
  exists (finalItems st1), (finalItems st5).
  unfold accepted. rewrite Hrun1.
  rewrite dedupLoop_app, Hrun1. cbn [mbind option_bind dedupLoop].
  rewrite Hstep2. cbn [mbind option_bind].
  rewrite dedupLoop_app, Hrun3. cbn [mbind option_bind dedupLoop].
  rewrite Hstep4, Hst4. cbn [mbind option_bind]. rewrite Hrun5.
  refine (conj eq_refl (conj eq_refl _)).
  fold pos. rewrite (Hf5 pos Hm4). exact Hf4.
Qed.

End Frame.

(** C4.  Two candidates pass the filters under one key, [plain] without a
    bracketed code and [coded] with one; the other candidates of the input
    have other keys.  In whichever order the two come, the output holds the
    sanitized [coded] record at the position the first of them opened. *)
Theorem code_preference (now : nat -> N) (l1 l2 l3 : list Item)
    (plain coded : Item) (k : jsstring) :
  classify plain = Accept false k ->
  classify coded = Accept true k ->
  keyAbsent k l1 -> keyAbsent k l2 -> keyAbsent k l3 ->
  exists fin1 out out',
    accepted l1 = Some fin1
    /\ consolidate now (l1 ++ plain :: l2 ++ coded :: l3) = Some out
    /\ out !! length fin1 = Some (finalize now (length fin1) coded)
    /\ consolidate now (l1 ++ coded :: l2 ++ plain :: l3) = Some out'
    /\ out' !! length fin1 = Some (finalize now (length fin1) coded).
Proof.
  intros Hp Hc H1 H2 H3.
  destruct (dedup_pair l1 l2 l3 plain coded false true k Hp Hc H1 H2 H3)
    as (fin1 & fin & Hacc1 & Hacc & Hpos).
  destruct (dedup_pair l1 l2 l3 coded plain true false k Hc Hp H1 H2 H3)
    as (fin1' & fin' & Hacc1' & Hacc' & Hpos').
  assert (fin1' = fin1) as -> by congruence.
  exists fin1, (imap (finalize now) fin), (imap (finalize now) fin').
  unfold consolidate. rewrite Hacc, Hacc'. cbn in Hpos, Hpos'.
  repeat split; try assumption.
  - rewrite list_lookup_imap, Hpos. reflexivity.
  - rewrite list_lookup_imap, Hpos'. reflexivity.
Qed.

Lemma code_preference_witness :
  exists fin1 out out',
    accepted [fx_other] = Some fin1
    /\ consolidate fx_now ([fx_other] ++ fx_plain :: [fx_noun] ++ fx_coded :: []) = Some out
    /\ out !! length fin1 = Some (finalize fx_now (length fin1) fx_coded)
    /\ consolidate fx_now ([fx_other] ++ fx_coded :: [fx_noun] ++ fx_plain :: []) = Some out'
    /\ out' !! length fin1 = Some (finalize fx_now (length fin1) fx_coded).
Proof.
  apply (code_preference fx_now [fx_other] [fx_noun] [] fx_plain fx_coded fx_key).
  - reflexivity.
  - reflexivity.
  - repeat constructor. intros h H. vm_compute in H. discriminate.
  - repeat constructor. intros h H. vm_compute in H. discriminate.
  - constructor.
Defined.

(** ** ResultConsolidator: the filters *)

Section Filters.

Lemma classify_short item :
  (length (stdTextOf item) < 10)%nat -> classify item = Skip.
Proof.
  intros H. unfold classify.
  destruct (Nat.ltb_spec (length (stdTextOf item)) 10); [reflexivity | lia].
Qed.

Lemma classify_intro item :
  (length (stdTextOf item) <? 10)%nat = false ->
  existsb (fun h => Js.eqb (keyOf item) h || Js.includes (keyOf item) codeHeader)
          headers = false ->
  negb (testCode (stdTextOf item))
  && negb (Js.endsWithClass isDaClass (bodyTextOf (stdTextOf item)))
  && negb (Js.endsWithClass isNounClass (bodyTextOf (stdTextOf item)))
  && (length (keyOf item) <? 5)%nat = false ->
  unitEcho item (keyOf item) = false ->
  classify item = Accept (testCode (stdTextOf item)) (keyOf item).
Proof. unfold classify, keyOf. intros -> -> -> ->. reflexivity. Qed.

(** A skipped candidate leaves no trace. *)
Lemma accepted_skip pre post item :
  classify item = Skip -> accepted (pre ++ item :: post) = accepted (pre ++ post).
Proof.
  intros Hskip. unfold accepted. rewrite !dedupLoop_app.
  destruct (dedupLoop emptyDedup pre) as [st|]; [|reflexivity].
  cbn [mbind option_bind dedupLoop]. rewrite dedupStep_skip by assumption.
  reflexivity.
Qed.

Lemma accepted_single item h k :
  classify item = Accept h k -> accepted [item] = Some [item].
Proof.
  intros Hc. unfold accepted. cbn [dedupLoop].
  rewrite (dedupStep_new emptyDedup item h k Hc) by apply lookup_empty.
  reflexivity.
Qed.

End Filters.

(** C2, as the code has it.  A candidate whose standard text, trimmed and
    without its leading marker but with its bracketed code still in it, is
    shorter than 10 units is excluded: the output is the one of the input
    without that candidate. *)
Theorem short_text_excluded (now : nat -> N) (pre post : list Item) (item : Item) :
  (length (stdTextOf item) < 10)%nat ->
  consolidate now (pre ++ item :: post) = consolidate now (pre ++ post).
Proof.
  intros H. unfold consolidate. rewrite accepted_skip; [reflexivity|].
  now apply classify_short.
Qed.

Lemma short_text_excluded_witness :
  consolidate fx_now ([fx_coded] ++ fx_noun :: [fx_other])
  = consolidate fx_now ([fx_coded] ++ [fx_other]).
Proof. apply (short_text_excluded fx_now [fx_coded] [fx_other] fx_noun). vm_compute. lia. Defined.

(** C2, as it is stated, fails: the body of [[9수01-01] 이해한다.] without
    its code has five units, the text with the code has fifteen, and the
    candidate is kept. *)
Lemma short_body_kept :
  length (bodyTextOf (stdTextOf fx_short_body)) = 5%nat
  /\ length (keyOf fx_short_body) = 5%nat
  /\ consolidate fx_now [fx_short_body] = Some [finalize fx_now 0 fx_short_body].
Proof. repeat split; vm_compute; reflexivity. Qed.

(** C3.  The two standards of the scenario, in either order and whatever
    the other fields of the two candidates, give exactly one record, the
    one of the coded standard; the unit of that candidate is not the
    standard's own text, which the unit-echo filter would drop. *)
Theorem scenario_one_record (now : nat -> N) (r1 r2 : Item) :
  item_standard r1 = Some fx_std_coded ->
  item_standard r2 = Some fx_std_noun ->
  unitEcho r1 fx_key = false ->
  consolidate now [r1; r2] = Some [finalize now 0 r1]
  /\ consolidate now [r2; r1] = Some [finalize now 0 r1].
Proof.
  intros H1 H2 Hunit.
  assert (Hs1 : stdTextOf r1 = fx_std_coded) by (unfold stdTextOf; now rewrite H1).
  assert (Hs2 : stdTextOf r2 = fx_std_noun) by (unfold stdTextOf; now rewrite H2).
  assert (Hskip : classify r2 = Skip).
  { apply classify_short. rewrite Hs2. vm_compute. lia. }
  assert (Hacc : classify r1 = Accept true fx_key).
  { rewrite (classify_intro r1); unfold keyOf; rewrite ?Hs1; try reflexivity.
    exact Hunit. }
  unfold consolidate. split.
  - rewrite (accepted_skip [r1] [] r2 Hskip : accepted [r1; r2] = accepted [r1]).
    now rewrite (accepted_single r1 _ _ Hacc).
  - rewrite (accepted_skip [] [r1] r2 Hskip : accepted [r2; r1] = accepted [r1]).
    now rewrite (accepted_single r1 _ _ Hacc).
Qed.

Lemma scenario_one_record_witness :
  consolidate fx_now [fx_coded; fx_noun] = Some [finalize fx_now 0 fx_coded]
  /\ consolidate fx_now [fx_noun; fx_coded] = Some [finalize fx_now 0 fx_coded].
Proof. apply (scenario_one_record fx_now fx_coded fx_noun); reflexivity. Defined.

(** ** ResultConsolidator: a second run *)

Section SecondRun.

(** The final [map] applied to its own result only renumbers. *)
Lemma finalize_finalize now1 now2 i j item :
  finalize now2 j (finalize now1 i item) = finalize now2 j item.
Proof. unfold finalize. cbn -[sanitizeText]. now rewrite !sanitizeText_idem. Qed.

(** The filters read the standard text and the unit of a candidate and
    nothing else. *)
Lemma classify_ext a b :
  default [] (item_standard a) = default [] (item_standard b) ->
  default [] (item_unit a) = default [] (item_unit b) ->
  classify a = classify b /\ keyOf a = keyOf b.
Proof.
  intros Hs Hu.
  assert (Hstd : stdTextOf a = stdTextOf b) by (unfold stdTextOf; now rewrite Hs).
  assert (Hecho : forall k, unitEcho a k = unitEcho b k).
  { intros k. unfold unitEcho.
    destruct (item_unit a) as [[|? ?]|], (item_unit b) as [[|? ?]|];
      cbn in Hu; try discriminate; try reflexivity.
    now rewrite Hu. }
  unfold classify, keyOf. rewrite Hstd. split; [|reflexivity].
  now rewrite Hecho.
Qed.

Lemma classify_finalize now i item :
  sanitizerStable item ->
  classify (finalize now i item) = classify item
  /\ keyOf (finalize now i item) = keyOf item.
Proof. intros [Hs Hu]. apply classify_ext; cbn -[sanitizeText]; assumption. Qed.

Lemma dedupStep_accepts st st' item :
  Forall acceptedOk (finalItems st) -> dedupStep st item = Some st' ->
  Forall acceptedOk (finalItems st').
Proof.
  intros Hall. unfold dedupStep.
  destruct (classify item) as [|h k] eqn:Hc; [now intros [= <-]|].
  assert (Hitem : acceptedOk item).
  { exists h. destruct (classify_Accept _ _ _ Hc) as (_ & <- & _). exact Hc. }
  destruct (bodyMap st !! k) as [i|].
  - destruct (finalItems st !! i) as [x|]; [|discriminate]. cbn.
    destruct (negb _ && h); intros [= <-]; [|assumption].
    now apply Forall_insert.
  - intros [= <-]. cbn. apply Forall_app. split; [assumption | by constructor].
Qed.

Lemma dedupLoop_accepts items : forall st st',
  Forall acceptedOk (finalItems st) -> dedupLoop st items = Some st' ->
  Forall acceptedOk (finalItems st').
Proof.
  induction items as [|item rest IH]; intros st st' Hall Hrun.
  - now injection Hrun as <-.
  - cbn [dedupLoop] in Hrun.
    destruct (dedupStep st item) as [st1|] eqn:Hstep; [|discriminate].
    cbn in Hrun. eapply IH; [|exact Hrun]. eapply dedupStep_accepts; eauto.
Qed.

(** Accepted candidates with fresh, pairwise different keys are stored
    one after the other. *)
Lemma dedupLoop_fresh items : forall st,
  Forall acceptedOk items -> NoDup (keyOf <$> items) ->
  (forall x, x ∈ items -> bodyMap st !! keyOf x = None) ->
  exists st', dedupLoop st items = Some st'
              /\ finalItems st' = finalItems st ++ items.
Proof.
  induction items as [|item rest IH]; intros st Hall Hnd Hfresh.
  - exists st. now rewrite app_nil_r.
  - apply Forall_cons in Hall as [[h Hc] Hall].
    cbn [fmap list_fmap] in Hnd. apply NoDup_cons in Hnd as [Hnotin Hnd].
    cbn [dedupLoop].
    rewrite (dedupStep_new st item h _ Hc) by (apply Hfresh; left).
    cbn [mbind option_bind].
    destruct (IH (mkDedup (finalItems st ++ [item])
                          (<[keyOf item := length (finalItems st)]> (bodyMap st))))
      as (st' & Hrun & Hfin); [assumption | assumption | |].
    + intros x Hx. cbn [bodyMap].
      rewrite lookup_insert_ne; [apply Hfresh; now right|].
      intros Heq. apply Hnotin. rewrite Heq. now apply list_elem_of_fmap_2.
    + exists st'. split; [assumption|].
      rewrite Hfin. cbn [finalItems]. now rewrite <- app_assoc.
Qed.

Lemma accepted_accepts items fin :
  accepted items = Some fin -> Forall acceptedOk fin /\ NoDup (keyOf <$> fin).
Proof.
  intros Hacc. destruct (accepted_total items) as (fin' & Hacc' & Hnd).
  assert (fin' = fin) as -> by congruence. split; [|assumption].
  unfold accepted in Hacc.
  destruct (dedupLoop emptyDedup items) as [st|] eqn:Hrun; [|discriminate].
  injection Hacc as <-. eapply dedupLoop_accepts; [|exact Hrun]. constructor.
Qed.

(** A second run over the output of a first accepts every record, in
    order, when the sanitizer changed neither standard nor unit. *)
Lemma accepted_output now items fin :
  accepted items = Some fin -> Forall sanitizerStable fin ->
  accepted (imap (finalize now) fin) = Some (imap (finalize now) fin).
Proof.
  intros Hacc Hstable.
  destruct (accepted_accepts items fin Hacc) as [Hall Hnd].
  assert (Hkeys : keyOf <$> imap (finalize now) fin = keyOf <$> fin).
  { rewrite fmap_imap. rewrite <- (imap_const keyOf fin).
    apply imap_ext. intros i x Hx. cbn.
    apply classify_finalize. rewrite Forall_lookup in Hstable. eauto. }
  destruct (dedupLoop_fresh (imap (finalize now) fin) emptyDedup)
    as (st' & Hrun & Hfin).
  - apply Forall_lookup. intros i y Hy.
    apply list_lookup_imap_Some in Hy as (x & Hx & ->).
    rewrite Forall_lookup in Hstable, Hall.
    destruct (classify_finalize now i x (Hstable i x Hx)) as [Hc Hk].
    destruct (Hall i x Hx) as [h Hh]. exists h. now rewrite Hc, Hk.
  - now rewrite Hkeys.
  - intros x _. apply lookup_empty.
  - unfold accepted. rewrite Hrun. cbn [fmap option_fmap option_map].
    now rewrite Hfin.
Qed.

End SecondRun.

(** C6, as the code has it.  When the sanitizer changes neither the standard
    text nor the unit of any accepted record, a second run over the output
    of a first gives what a run over the first candidates gives at the
    second run's clock readings; with one clock for both runs, the output
    comes back unchanged. *)
Theorem consolidate_idempotent_stable (now1 now2 : nat -> N)
    (allItems fin out : list Item) :
  accepted allItems = Some fin ->
  Forall sanitizerStable fin ->
  consolidate now1 allItems = Some out ->
  consolidate now2 out = consolidate now2 allItems
  /\ consolidate now1 out = Some out.
Proof.
  intros Hacc Hstable Hout. unfold consolidate in *. rewrite Hacc in *.
  cbn in Hout. injection Hout as <-.
  rewrite !(accepted_output now1 allItems fin Hacc Hstable). cbn.
  split; f_equal; apply list_eq; intros i;
    rewrite !list_lookup_imap; destruct (fin !! i); cbn; try reflexivity;
    now rewrite finalize_finalize.
Qed.

Lemma consolidate_idempotent_stable_witness :
  consolidate fx_now [finalize fx_now 0 fx_coded; finalize fx_now 1 fx_other]
  = consolidate fx_now [fx_plain; fx_coded; fx_noun; fx_other; fx_coded]
  /\ consolidate fx_now [finalize fx_now 0 fx_coded; finalize fx_now 1 fx_other]
     = Some [finalize fx_now 0 fx_coded; finalize fx_now 1 fx_other].
Proof.
  apply (consolidate_idempotent_stable fx_now fx_now
           [fx_plain; fx_coded; fx_noun; fx_other; fx_coded]
           [fx_coded; fx_other]).
  - vm_compute. reflexivity.
  - repeat constructor.
  - vm_compute. reflexivity.
Defined.

(** C6, as it is stated, fails: the record of [아ᅢ가나다라마바사다] is
    accepted with ten units, its sanitized text [·가나다라마바사다] has nine,
    and a second run drops it. *)
Lemma second_run_drops_record :
  consolidate fx_now [fx_corrupted] = Some [finalize fx_now 0 fx_corrupted]
  /\ consolidate fx_now [finalize fx_now 0 fx_corrupted] = Some [].
Proof. split; vm_compute; reflexivity. Qed.

(** ** DocumentSlicer *)

Section Slicer.

Variable env : Env.
Variable file : File.

(** The [catch] of the slicer leaves no rejection. *)
Lemma extractPdfPagesByIndices_settles pageIndices :
  exists r, extractPdfPagesByIndices env file pageIndices = Resolved r.
Proof.
  unfold extractPdfPagesByIndices, tryCatch.
  destruct (if (length pageIndices =? 0)%nat then _ else _); eauto.
Qed.

Lemma extractPdfPagesByIndices_fails pageIndices :
  slicingFails env file pageIndices ->
  extractPdfPagesByIndices env file pageIndices = Resolved None.
Proof.
  unfold slicingFails, extractPdfPagesByIndices. intros Hfail.
  destruct (length pageIndices =? 0)%nat; [reflexivity|].
  destruct (file_pdf file) as [pdfDoc|e]; [|reflexivity]. cbn.
  destruct (copyPages pdfDoc pageIndices) as [copiedPages|e]; [|reflexivity]. cbn.
  destruct (saveAsBase64 env _); [contradiction | reflexivity].
Qed.

End Slicer.

(** C9, as the code has it.  When reading the document, copying the pages or
    writing the new document fails, the slicer resolves with [null], as it
    does for an empty index sequence; it never rejects. *)
Theorem slicing_failure_gives_null (env : Env) (file : File) (pageIndices : list Z) :
  slicingFails env file pageIndices ->
  extractPdfPagesByIndices env file pageIndices = Resolved None
  /\ (forall e, extractPdfPagesByIndices env file pageIndices ≠ Rejected e).
Proof.
  intros Hfail. rewrite (extractPdfPagesByIndices_fails env file pageIndices Hfail).
  split; [reflexivity | discriminate].
Qed.

Lemma slicing_failure_gives_null_witness :
  extractPdfPagesByIndices fx_env_down fx_pdf [0; 5]%Z = Resolved None
  /\ (forall e, extractPdfPagesByIndices fx_env_down fx_pdf [0; 5]%Z ≠ Rejected e).
Proof. apply (slicing_failure_gives_null fx_env_down fx_pdf [0; 5]%Z). exact I. Defined.

(** C9, as it is stated, fails: for a document that cannot be opened and
    the one-page sequence [[0]] the slicer resolves with [null]; no error
    reaches the caller. *)
Lemma broken_document_gives_null :
  file_pdf fx_pdf_broken = Rejected PdfError
  /\ extractPdfPagesByIndices fx_env_down fx_pdf_broken [0%Z] = Resolved None.
Proof. split; reflexivity. Qed.

(** ** The whole operation when the extraction service fails *)

Section ServiceDown.

Variable env : Env.
Hypothesis down : forall i contents, callFails env i contents.

Lemma analyzeChunk_down chunkContent prompt i :
  analyzeChunk env chunkContent prompt i = Resolved [].
Proof.
  unfold analyzeChunk. pose proof (down i (chunkContent ++ [Text prompt])) as Hf.
  unfold callFails in Hf.
  destruct (generateContent env i _) as [[[|c t]|]|e]; cbn; try contradiction;
    try reflexivity.
  destruct (jsonParse env (c :: t)); [contradiction | reflexivity].
Qed.

Lemma chunkPromise_down file prompt i indices :
  chunkPromise env file prompt i indices = Resolved [].
Proof.
  unfold chunkPromise.
  destruct (extractPdfPagesByIndices_settles env file indices) as [[[|c t]|] ->];
    cbn; try reflexivity.
  apply analyzeChunk_down.
Qed.

Lemma promiseAll_empty (chunks : list (list Z)) :
  forall f : nat -> list Z -> Outcome (list Item),
  (forall i indices, f i indices = Resolved []) ->
  exists results, promiseAll (imap f chunks) = Resolved results
                  /\ concat results = [].
Proof.
  induction chunks as [|c rest IH]; intros f Hf; [by exists []|].
  rewrite imap_cons. cbn [promiseAll]. rewrite Hf. cbn.
  destruct (IH (f ∘ S)) as (results & Hall & Hcat); [intros i x; apply Hf|].
  rewrite Hall. cbn. exists ([] :: results). split; [reflexivity | exact Hcat].
Qed.

Lemma promiseAll_down file prompt chunks :
  exists results,
    promiseAll (imap (chunkPromise env file prompt) chunks) = Resolved results
    /\ concat results = [].
Proof. apply promiseAll_empty. intros i indices. apply chunkPromise_down. Qed.

Lemma chunkedExtraction_down file prompt range :
  (exists e, chunkedExtraction env file prompt range = Rejected e)
  \/ chunkedExtraction env file prompt range = Resolved (Return [])
  \/ chunkedExtraction env file prompt range = Resolved (Proceed []).
Proof.
  unfold chunkedExtraction.
  destruct (file_pdf file) as [pdfDoc|e]; cbn; [|eauto].
  destruct (length (parsePageRange range _) =? 0)%nat; [auto|].
  destruct (chunkIndices CHUNK_SIZE _) as [chunks|]; [|eauto].
  destruct (promiseAll_down file prompt chunks) as (results & Hall & Hcat).
  rewrite Hall. cbn. rewrite Hcat. auto.
Qed.

Lemma fallbackExtraction_down file prompt data :
  file_base64 file = Resolved data ->
  fallbackExtraction env file prompt = Resolved (Proceed []).
Proof.
  intros Hdata. unfold fallbackExtraction. rewrite Hdata. cbn.
  now rewrite analyzeChunk_down.
Qed.

Lemma singleExtraction_down file prompt data text :
  file_base64 file = Resolved data -> file_text file = Resolved text ->
  singleExtraction env file prompt = Resolved (Proceed []).
Proof.
  intros Hdata Htext. unfold singleExtraction. rewrite Hdata, Htext.
  destruct (Js.eqb _ _); cbn; now rewrite analyzeChunk_down.
Qed.

End ServiceDown.

(** C1, as the code has it.  With an API key set and a file that can be
    read, a run in which every extraction call fails (in every chunk, in
    the fallback call, in the single call for other files) resolves with
    the empty record list; no error reaches the caller. *)
Theorem total_failure_gives_empty_list (env : Env) (file : File)
    (prompt : jsstring) (pageRange : option jsstring)
    (c : N) (key data text : jsstring) :
  (forall i contents, callFails env i contents) ->
  getApiKey env = Some (c :: key) ->
  file_base64 file = Resolved data ->
  file_text file = Resolved text ->
  parseStandardsAndGeneratePlan env file prompt pageRange = Resolved [].
Proof.
  intros Hdown Hkey Hdata Htext. unfold parseStandardsAndGeneratePlan. rewrite Hkey.
  pose proof (singleExtraction_down env Hdown file prompt data text Hdata Htext) as Hsingle.
  pose proof (fallbackExtraction_down env Hdown file prompt data Hdata) as Hfall.
  destruct (Js.eqb (file_mime file) mimePdf); [|now rewrite Hsingle].
  destruct (hasPageRange pageRange) as [r|]; [|now rewrite Hsingle].
  destruct (chunkedExtraction_down env Hdown file prompt r) as [[e He]|[He|He]];
    rewrite He; cbn [tryCatch]; [now rewrite Hfall | reflexivity | reflexivity].
Qed.

Lemma total_failure_gives_empty_list_witness :
  parseStandardsAndGeneratePlan fx_env_down
    (mkFile mimePdf (Resolved [Js.ofAscii "page 1"; Js.ofAscii "page 2"])
            (Resolved (Js.ofAscii "JVBERi0xLjc=")) (Resolved (Js.ofAscii "text")))
    [] (Some (Js.ofAscii "1-2"))
  = Resolved [].
Proof.
  eapply (total_failure_gives_empty_list fx_env_down _ [] _ _ _ _ _).
  - intros i contents. exact I.
  - reflexivity.
  - reflexivity.
  - reflexivity.
Defined.

(** C1, as it is stated, fails: with the service down, the run over pages 1
    and 2 of a two-page document, and the fallback run over a document that
    cannot be opened, both resolve with the empty list. *)
Lemma service_down_gives_empty_list :
  (forall i contents, generateContent fx_env_down i contents = Rejected ServiceError)
  /\ parseStandardsAndGeneratePlan fx_env_down fx_pdf [] (Some (Js.ofAscii "1-2"))
     = Resolved []
  /\ parseStandardsAndGeneratePlan fx_env_down fx_pdf_broken [] (Some (Js.ofAscii "1-2"))
     = Resolved [].
Proof. repeat split; vm_compute; reflexivity. Qed.


(** * Further properties *)

(** ** TextSanitizer: what is left in a sanitized text *)

Section SanitizerOutput.

Lemma includes_pair_cons a r :
  Js.includes (a :: r) [cu_A; cu_AE]
  = (a =? cu_A) && match r with b :: _ => b =? cu_AE | [] => false end
    || Js.includes r [cu_A; cu_AE].
Proof.
  cbn [Js.includes Js.isPrefixOf]. rewrite (N.eqb_sym cu_A a).
  destruct r as [|b t]; [reflexivity|].
  now rewrite (N.eqb_sym cu_AE b), andb_true_r.
Qed.

Lemma includes_unit_cons c a r :
  Js.includes (a :: r) [c] = (a =? c) || Js.includes r [c].
Proof.
  cbn [Js.includes Js.isPrefixOf]. now rewrite (N.eqb_sym c a), andb_true_r.
Qed.

Lemma includes_nil_pair : Js.includes [] [cu_A; cu_AE] = false.
Proof. reflexivity. Qed.

Lemma replaceCorrupted_no_pair_bounded n : forall s,
  (length s <= n)%nat -> Js.includes (replaceCorrupted s) [cu_A; cu_AE] = false.
Proof.
  induction n as [|n IH]; intros s Hn.
  - destruct s; [reflexivity | simpl in Hn; lia].
  - destruct s as [|a [|b t]]; [reflexivity | |].
    + cbn [replaceCorrupted]. rewrite includes_pair_cons. now rewrite andb_false_r.
    + simpl in Hn. rewrite replaceCorrupted_eq.
      destruct ((a =? cu_A) && (b =? cu_AE)) eqn:Hm.
      * rewrite includes_pair_cons, IH by lia. reflexivity.
      * destruct (replaceCorrupted_head b t) as (c & rest & Hc & Hor).
        rewrite includes_pair_cons, IH by (simpl; lia). rewrite Hc.
        rewrite orb_false_r.
        destruct (N.eqb_spec a cu_A) as [->|]; [|reflexivity]. cbn in Hm.
        apply N.eqb_neq in Hm.
        destruct Hor as [->| ->]; [now apply N.eqb_neq | reflexivity].
Qed.

Lemma replaceHalfwidthDot_pair s :
  Js.includes (replaceHalfwidthDot s) [cu_A; cu_AE] = Js.includes s [cu_A; cu_AE].
Proof.
  induction s as [|a r IH]; [reflexivity|].
  change (replaceHalfwidthDot (a :: r))
    with ((if a =? cu_halfwidth_dot then cu_middle_dot else a) :: replaceHalfwidthDot r).
  rewrite !includes_pair_cons, IH. f_equal. f_equal.
  - destruct (N.eqb_spec a cu_halfwidth_dot) as [->|]; reflexivity.
  - destruct r as [|b t]; [reflexivity|].
    change (replaceHalfwidthDot (b :: t))
      with ((if b =? cu_halfwidth_dot then cu_middle_dot else b) :: replaceHalfwidthDot t).
    destruct (N.eqb_spec b cu_halfwidth_dot) as [->|]; reflexivity.
Qed.

Lemma replaceHalfwidthDot_no_dot s :
  Js.includes (replaceHalfwidthDot s) [cu_halfwidth_dot] = false.
Proof.
  induction s as [|a r IH]; [reflexivity|].
  change (replaceHalfwidthDot (a :: r))
    with ((if a =? cu_halfwidth_dot then cu_middle_dot else a) :: replaceHalfwidthDot r).
  rewrite includes_unit_cons, IH, orb_false_r.
  destruct (N.eqb_spec a cu_halfwidth_dot) as [->|Hne]; [reflexivity|].
  now apply N.eqb_neq.
Qed.

Lemma sanitizeString_clean s : hasArtifact (sanitizeString s) = false.
Proof.
  unfold hasArtifact, sanitizeString.
  rewrite !replaceHalfwidthDot_pair, replaceHalfwidthDot_no_dot.
  now rewrite (replaceCorrupted_no_pair_bounded (length s) s (le_n _)).
Qed.

Lemma replaceCorrupted_clean_bounded n : forall s,
  (length s <= n)%nat -> Js.includes s [cu_A; cu_AE] = false -> replaceCorrupted s = s.
Proof.
  induction n as [|n IH]; intros s Hn Hs.
  - destruct s; [reflexivity | simpl in Hn; lia].
  - destruct s as [|a [|b t]]; [reflexivity | reflexivity |].
    simpl in Hn. rewrite includes_pair_cons in Hs.
    apply orb_false_iff in Hs as [Hhead Htail].
    rewrite replaceCorrupted_eq, Hhead. f_equal. apply IH; [simpl; lia | assumption].
Qed.

Lemma replaceHalfwidthDot_clean s :
  Js.includes s [cu_halfwidth_dot] = false -> replaceHalfwidthDot s = s.
Proof.
  induction s as [|a r IH]; [reflexivity|]. rewrite includes_unit_cons.
  intros H. apply orb_false_iff in H as [Ha Hr].
  change (replaceHalfwidthDot (a :: r))
    with ((if a =? cu_halfwidth_dot then cu_middle_dot else a) :: replaceHalfwidthDot r).
  now rewrite Ha, IH.
Qed.

Lemma sanitizeString_fixed s : hasArtifact s = false -> sanitizeString s = s.
Proof.
  unfold hasArtifact, sanitizeString. intros H.
  apply orb_false_iff in H as [Hpair Hdot].
  rewrite (replaceCorrupted_clean_bounded (length s) s (le_n _) Hpair).
  now rewrite !(replaceHalfwidthDot_clean s Hdot).
Qed.

Lemma replaceCorrupted_length_bounded n : forall s,
  (length s <= n)%nat -> (length (replaceCorrupted s) <= length s)%nat.
Proof.
  induction n as [|n IH]; intros s Hn.
  - destruct s; [reflexivity | simpl in Hn; lia].
  - destruct s as [|a [|b t]]; [reflexivity | reflexivity |].
    simpl in Hn. rewrite replaceCorrupted_eq.
    destruct ((a =? cu_A) && (b =? cu_AE)).
    + specialize (IH t ltac:(lia)). simpl. lia.
    + specialize (IH (b :: t) ltac:(simpl; lia)). simpl in *. lia.
Qed.

End SanitizerOutput.

(** X1.  A sanitized text holds neither the corrupted pair [아ᅢ] nor a
    halfwidth katakana middle dot, whatever the field held. *)
Theorem sanitizeText_no_artifact (x : option jsstring) :
  hasArtifact (sanitizeText x) = false.
Proof.
  destruct x as [[|c s]|]; try reflexivity.
  change (sanitizeText (Some (c :: s))) with (sanitizeString (c :: s)).
  apply sanitizeString_clean.
Qed.

(** X2.  The sanitizer returns a text unchanged exactly when the text holds
    none of the renderings it rewrites. *)
Theorem sanitizeText_fixed_iff (s : jsstring) :
  sanitizeText (Some s) = s <-> hasArtifact s = false.
Proof.
  rewrite sanitizeText_Some. split.
  - intros <-. apply sanitizeString_clean.
  - apply sanitizeString_fixed.
Qed.

(** X3.  The sanitizer never lengthens a text: each rewriting puts one unit
    in the place of one or two. *)
Theorem sanitizeText_length (s : jsstring) :
  (length (sanitizeText (Some s)) <= length s)%nat.
Proof.
  rewrite sanitizeText_Some. unfold sanitizeString, replaceHalfwidthDot.
  rewrite !length_map. apply (replaceCorrupted_length_bounded (length s)), le_n.
Qed.

(** ** ResultConsolidator: which candidate is kept *)

Section Retention.

Lemma acceptsAs_spec h k item :
  acceptsAs h k item = true <-> classify item = Accept h k.
Proof.
  unfold acceptsAs, Js.eqb. destruct (classify item) as [|h' k'].
  - split; discriminate.
  - rewrite andb_true_iff, bool_decide_eq_true. split.
    + intros [Hh ->]. apply Bool.eqb_prop in Hh. now subst.
    + intros [= -> ->]. split; [apply Bool.eqb_reflx | reflexivity].
Qed.

Lemma acceptsAs_other h k h' k' item :
  classify item = Accept h' k' -> k ≠ k' -> acceptsAs h k item = false.
Proof.
  intros Hc Hne. destruct (acceptsAs h k item) eqn:E; [|reflexivity].
  apply acceptsAs_spec in E. congruence.
Qed.

Lemma acceptsAs_skip h k item : classify item = Skip -> acceptsAs h k item = false.
Proof. unfold acceptsAs. now intros ->. Qed.

Lemma find_snoc (p : Item -> bool) l x :
  List.find p (l ++ [x])
  = match List.find p l with
    | Some y => Some y
    | None => if p x then Some x else None
    end.
Proof.
  induction l as [|a l IH]; cbn [List.find app]; [reflexivity|].
  destruct (p a); [reflexivity | exact IH].
Qed.

Lemma retained_snoc_other k l x :
  acceptsAs true k x = false -> acceptsAs false k x = false ->
  retained k (l ++ [x]) = retained k l.
Proof.
  intros Ht Hf. unfold retained. rewrite !find_snoc, Ht, Hf.
  destruct (List.find (acceptsAs true k) l); [reflexivity|].
  now destruct (List.find (acceptsAs false k) l).
Qed.

(** A kept record has a code exactly when some accepted candidate of its
    key has one. *)
Lemma retained_coded k l e :
  retained k l = Some e ->
  exists h, classify e = Accept h k
            /\ (h = true <-> List.find (acceptsAs true k) l ≠ None).
Proof.
  unfold retained. destruct (List.find (acceptsAs true k) l) as [y|] eqn:Ht.
  - intros [= <-]. apply find_some in Ht as [_ Ht]. apply acceptsAs_spec in Ht.
    exists true. split; [assumption|]. split; [discriminate | reflexivity].
  - intros Hf. apply find_some in Hf as [_ Hf]. apply acceptsAs_spec in Hf.
    exists false. split; [assumption|]. split; [discriminate | congruence].
Qed.

Lemma entry_frame st st' k :
  bodyMap st' !! k = bodyMap st !! k ->
  (forall i, bodyMap st !! k = Some i -> finalItems st' !! i = finalItems st !! i) ->
  entry k st' = entry k st.
Proof.
  intros Hm Hf. unfold entry. rewrite Hm.
  destruct (bodyMap st !! k) as [i|] eqn:Hk; [|reflexivity]. cbn. now apply Hf.
Qed.

Lemma dedupAfter_empty : dedupAfter [] emptyDedup.
Proof.
  split; [apply dedupOk_empty|]. intros k. unfold entry. cbn.
  now rewrite lookup_empty.
Qed.

Lemma dedupAfter_step seen st item :
  dedupAfter seen st ->
  exists st', dedupStep st item = Some st' /\ dedupAfter (seen ++ [item]) st'.
Proof.
  intros [Hok Hent].
  destruct (dedupStep_ok st item Hok) as (st' & Hstep & Hok').
  exists st'. split; [assumption|]. split; [assumption|]. intros k.
  destruct (classify item) as [|h kx] eqn:Hc.
  - rewrite dedupStep_skip in Hstep by assumption. injection Hstep as <-.
    rewrite retained_snoc_other by (now apply acceptsAs_skip). apply Hent.
  - destruct (decide (k = kx)) as [->|Hne].
    2:{ destruct (dedupStep_frame st st' item k Hok) as [Hm Hf];
          [intros h' Hh'; congruence | assumption |].
        rewrite (entry_frame st st' k Hm Hf), Hent.
        symmetry. apply retained_snoc_other; eapply acceptsAs_other; eauto. }
    assert (Hx : forall b, acceptsAs b kx item = Bool.eqb b h).
    { intros b. unfold acceptsAs, Js.eqb. rewrite Hc.
      rewrite bool_decide_eq_true_2 by reflexivity. apply andb_true_r. }
    specialize (Hent kx). unfold retained. rewrite !find_snoc, !Hx.
    destruct (bodyMap st !! kx) as [i|] eqn:Hk.
    + destruct (dedupOk_entry st kx i Hok Hk) as (e & He & _).
      rewrite (dedupStep_seen st item h kx i e Hc Hk He) in Hstep.
      injection Hstep as <-.
      assert (Hret : retained kx seen = Some e).
      { rewrite <- Hent. unfold entry. rewrite Hk. exact He. }
      destruct (retained_coded kx seen e Hret) as (he & Hce & Hcoded).
      destruct (classify_Accept _ _ _ Hce) as (Hhe & _). rewrite <- Hhe.
      unfold retained in Hret.
      destruct (List.find (acceptsAs true kx) seen) as [y|] eqn:Ht.
      * assert (he = true) as -> by (apply Hcoded; discriminate).
        cbn [negb andb]. unfold entry. rewrite Hk. cbn.
        rewrite He. congruence.
      * assert (he = false) as ->.
        { destruct he; [|reflexivity]. now destruct (proj1 Hcoded eq_refl). }
        cbn [negb andb]. rewrite Hret. destruct h; cbn.
        -- unfold entry. cbn. rewrite Hk. cbn.
           apply list_lookup_insert_eq. now apply lookup_lt_Some in He.
        -- unfold entry. rewrite Hk. exact He.
    + rewrite (dedupStep_new st item h kx Hc Hk) in Hstep. injection Hstep as <-.
      assert (Hret : retained kx seen = None).
      { rewrite <- Hent. unfold entry. now rewrite Hk. }
      unfold retained in Hret.
      destruct (List.find (acceptsAs true kx) seen); [discriminate|].
      rewrite Hret. unfold entry. cbn. rewrite lookup_insert_eq. cbn.
      rewrite lookup_app_r by lia. rewrite Nat.sub_diag. cbn.
      now destruct h.
Qed.

Lemma dedupAfter_loop rest : forall seen st,
  dedupAfter seen st ->
  exists st', dedupLoop st rest = Some st' /\ dedupAfter (seen ++ rest) st'.
Proof.
  induction rest as [|item rest IH]; intros seen st Hinv.
  - exists st. now rewrite app_nil_r.
  - destruct (dedupAfter_step seen st item Hinv) as (st1 & Hstep & Hinv1).
    destruct (IH (seen ++ [item]) st1 Hinv1) as (st' & Hrun & Hinv').
    exists st'. cbn [dedupLoop]. rewrite Hstep. cbn.
    split; [assumption|]. now rewrite <- app_assoc in Hinv'.
Qed.

Lemma dedupAfter_all items :
  exists st, dedupLoop emptyDedup items = Some st /\ dedupAfter items st.
Proof. exact (dedupAfter_loop items [] emptyDedup dedupAfter_empty). Qed.

(** A candidate that was seen before changes nothing. *)
Lemma dedupStep_repeat seen st item :
  dedupAfter seen st -> item ∈ seen -> dedupStep st item = Some st.
Proof.
  intros [Hok Hent] Hin. destruct (classify item) as [|h k] eqn:Hc.
  - now apply dedupStep_skip.
  - assert (Hfound : List.find (acceptsAs h k) seen ≠ None).
    { intros Hnone. apply acceptsAs_spec in Hc.
      rewrite (find_none _ _ Hnone item) in Hc; [discriminate|].
      now apply list_elem_of_In. }
    assert (Hsome : exists e, retained k seen = Some e).
    { unfold retained. destruct h.
      - destruct (List.find (acceptsAs true k) seen); [eauto | contradiction].
      - destruct (List.find (acceptsAs true k) seen); [eauto|].
        destruct (List.find (acceptsAs false k) seen); [eauto | contradiction]. }
    destruct Hsome as [e Hret].
    pose proof (Hent k) as Hentry. rewrite Hret in Hentry. unfold entry in Hentry.
    destruct (bodyMap st !! k) as [i|] eqn:Hk; [|discriminate]. cbn in Hentry.
    rewrite (dedupStep_seen st item h k i e Hc Hk Hentry).
    destruct (retained_coded k seen e Hret) as (he & Hce & Hcoded).
    destruct (classify_Accept _ _ _ Hce) as (Hhe & _). rewrite <- Hhe.
    destruct h; [|now rewrite andb_false_r].
    assert (he = true) as -> by (now apply Hcoded). reflexivity.
Qed.

End Retention.

(** X4.  The record the consolidator keeps for a key is the first accepted
    candidate of that key that has a bracketed code, and without one the
    first accepted candidate of that key; every key of an accepted
    candidate has its record. *)
Theorem accepted_retains (allItems fin : list Item) :
  accepted allItems = Some fin ->
  (forall i x, fin !! i = Some x -> retained (keyOf x) allItems = Some x)
  /\ (forall k y, retained k allItems = Some y -> y ∈ fin).
Proof.
  intros Hacc. destruct (dedupAfter_all allItems) as (st & Hrun & Hok & Hent).
  unfold accepted in Hacc. rewrite Hrun in Hacc. injection Hacc as <-. split.
  - intros i x Hx. rewrite <- Hent. unfold entry.
    assert (Hk : bodyMap st !! keyOf x = Some i).
    { apply Hok. rewrite list_lookup_fmap, Hx. reflexivity. }
    rewrite Hk. exact Hx.
  - intros k y Hret. rewrite <- Hent in Hret. unfold entry in Hret.
    destruct (bodyMap st !! k) as [i|]; [|discriminate].
    apply list_elem_of_lookup. eauto.
Qed.

Lemma accepted_retains_witness :
  (forall i x, [fx_other; fx_coded] !! i = Some x ->
     retained (keyOf x) [fx_other; fx_plain; fx_noun; fx_coded; fx_plain] = Some x)
  /\ (forall k y, retained k [fx_other; fx_plain; fx_noun; fx_coded; fx_plain] = Some y ->
        y ∈ [fx_other; fx_coded]).
Proof.
  apply (accepted_retains [fx_other; fx_plain; fx_noun; fx_coded; fx_plain]).
  vm_compute. reflexivity.
Defined.

(** X5.  A candidate that already occurred earlier in the input adds nothing:
    dropping the later occurrence leaves the output as it is. *)
Theorem repeated_candidate_ignored (now : nat -> N) (pre post : list Item) (item : Item) :
  item ∈ pre ->
  consolidate now (pre ++ item :: post) = consolidate now (pre ++ post).
Proof.
  intros Hin. unfold consolidate, accepted. rewrite !dedupLoop_app.
  destruct (dedupAfter_all pre) as (st & Hrun & Hinv). rewrite Hrun.
  cbn [mbind option_bind dedupLoop].
  now rewrite (dedupStep_repeat pre st item Hinv Hin).
Qed.

Lemma repeated_candidate_ignored_witness :
  consolidate fx_now ([fx_plain; fx_coded] ++ fx_plain :: [fx_other])
  = consolidate fx_now ([fx_plain; fx_coded] ++ [fx_other]).
Proof.
  apply (repeated_candidate_ignored fx_now [fx_plain; fx_coded] [fx_other] fx_plain).
  apply list_elem_of_here.
Defined.

(** ** ResultConsolidator: order, provenance and identifiers of the output *)

Section OutputShape.

Lemma dedupOk_key_elem st k :
  dedupOk st -> (k ∈ keyOf <$> finalItems st <-> bodyMap st !! k ≠ None).
Proof.
  intros Hok. rewrite list_elem_of_lookup. split.
  - intros [i Hi]. apply Hok in Hi. congruence.
  - intros Hk. destruct (bodyMap st !! k) as [i|] eqn:E; [|contradiction].
    exists i. now apply Hok.
Qed.

(** One step appends the key of a candidate accepted under a key not seen
    so far, and leaves the sequence of keys alone otherwise. *)
Lemma dedupStep_keys st st' item :
  dedupOk st -> dedupStep st item = Some st' ->
  keyOf <$> finalItems st'
  = (keyOf <$> finalItems st) ++ newKey (keyOf <$> finalItems st) item.
Proof.
  intros Hok Hstep. unfold newKey. destruct (classify item) as [|h k] eqn:Hc.
  - rewrite dedupStep_skip in Hstep by assumption. injection Hstep as <-.
    now rewrite app_nil_r.
  - destruct (classify_Accept _ _ _ Hc) as (_ & Hk & _).
    destruct (bodyMap st !! k) as [i|] eqn:Hm.
    + destruct (dedupOk_entry st k i Hok Hm) as (e & He & Hke).
      rewrite (dedupStep_seen st item h k i e Hc Hm He) in Hstep.
      injection Hstep as <-.
      rewrite decide_True by (apply dedupOk_key_elem; [assumption | congruence]).
      rewrite app_nil_r. destruct (negb _ && h); [|reflexivity]. cbn [finalItems].
      rewrite list_fmap_insert, list_insert_id; [reflexivity|].
      rewrite list_lookup_fmap, He. cbn. congruence.
    + rewrite (dedupStep_new st item h k Hc Hm) in Hstep. injection Hstep as <-.
      rewrite decide_False.
      * cbn [finalItems]. rewrite fmap_app. cbn. congruence.
      * intros Hin. apply (dedupOk_key_elem st k Hok) in Hin. contradiction.
Qed.

Lemma dedupStep_sub st st' item :
  dedupStep st item = Some st' ->
  (forall x, x ∈ finalItems st' -> x ∈ finalItems st \/ x = item)
  /\ (length (finalItems st') <= S (length (finalItems st)))%nat.
Proof.
  unfold dedupStep. destruct (classify item) as [|h k].
  - intros [= <-]. split; [auto | lia].
  - destruct (bodyMap st !! k) as [i|].
    + destruct (finalItems st !! i) as [e|]; [|discriminate]. cbn.
      destruct (negb _ && h); intros [= <-]; [|split; [auto | lia]].
      cbn [finalItems]. rewrite length_insert. split; [|lia].
      intros x Hx. apply list_elem_of_lookup in Hx as [j Hj].
      destruct (decide (i = j)) as [->|Hne].
      * rewrite list_lookup_insert_eq in Hj by (now apply lookup_lt_Some in Hj;
          rewrite length_insert in Hj).
        right. congruence.
      * rewrite list_lookup_insert_ne in Hj by assumption.
        left. apply list_elem_of_lookup. eauto.
    + intros [= <-]. cbn [finalItems]. rewrite length_app. cbn. split; [|lia].
      intros x Hx. apply elem_of_app in Hx as [Hx|Hx]; [auto|].
      right. now apply list_elem_of_singleton in Hx.
Qed.

Lemma dedupLoop_sub items : forall st st',
  dedupLoop st items = Some st' ->
  (forall x, x ∈ finalItems st' -> x ∈ finalItems st \/ x ∈ items)
  /\ (length (finalItems st') <= length (finalItems st) + length items)%nat.
Proof.
  induction items as [|item rest IH]; intros st st' Hrun.
  - injection Hrun as <-. split; [auto | lia].
  - cbn [dedupLoop] in Hrun.
    destruct (dedupStep st item) as [st1|] eqn:Hstep; [|discriminate]. cbn in Hrun.
    destruct (dedupStep_sub st st1 item Hstep) as [Hin1 Hlen1].
    destruct (IH st1 st' Hrun) as [Hin Hlen]. split; [|simpl; lia].
    intros x Hx. destruct (Hin x Hx) as [H1|H1]; [|right; now right].
    destruct (Hin1 x H1) as [H2| ->]; [now left | right; left].
Qed.

(** What the filters have checked of an accepted candidate. *)
Lemma classify_Accept_filters item h k :
  classify item = Accept h k ->
  (10 <= length (stdTextOf item))%nat
  /\ (keyOf item ∉ headers)
  /\ Js.includes (keyOf item) codeHeader = false
  /\ unitEcho item (keyOf item) = false
  /\ (testCode (stdTextOf item) = true
      \/ Js.endsWithClass isDaClass (bodyTextOf (stdTextOf item)) = true
      \/ Js.endsWithClass isNounClass (bodyTextOf (stdTextOf item)) = true
      \/ (5 <= length (keyOf item))%nat).
Proof.
  unfold classify, keyOf.
  destruct (Nat.ltb_spec (length (stdTextOf item)) 10) as [|Hlen]; [discriminate|].
  destruct (existsb _ headers) eqn:Hhead; [discriminate|].
  destruct (negb (testCode _) && _ && _ && _) eqn:Hshape; [discriminate|].
  destruct (unitEcho _ _) eqn:Hecho; [discriminate|]. intros _.
  split; [assumption|]. split; [|split; [|split; [reflexivity|]]].
  - intros Hin. apply list_elem_of_In in Hin.
    rewrite <- not_true_iff_false in Hhead. apply Hhead.
    apply existsb_exists. eexists. split; [exact Hin|].
    unfold Js.eqb. now rewrite bool_decide_eq_true_2.
  - destruct (Js.includes _ codeHeader) eqn:Hinc; [|reflexivity].
    rewrite <- not_true_iff_false in Hhead. exfalso. apply Hhead.
    apply existsb_exists. eexists. split; [left; reflexivity|].
    now rewrite orb_true_r.
  - destruct (testCode _); [auto|].
    destruct (Js.endsWithClass isDaClass _); [auto|].
    destruct (Js.endsWithClass isNounClass _); [auto|]. cbn in Hshape.
    apply Nat.leb_gt in Hshape. right; right; right. lia.
Qed.

(** Skipped candidates can be left out beforehand. *)
Lemma dedupLoop_passes items : forall st,
  dedupLoop st (List.filter passes items) = dedupLoop st items.
Proof.
  induction items as [|item rest IH]; intros st; [reflexivity|].
  cbn [List.filter dedupLoop]. unfold passes at 1.
  destruct (classify item) as [|h k] eqn:Hc.
  - rewrite dedupStep_skip by assumption. cbn. apply IH.
  - cbn [dedupLoop]. destruct (dedupStep st item); [cbn; apply IH | reflexivity].
Qed.

Lemma digits_are_digits u : Forall (fun c => isDigit c = true) (Js.digits u).
Proof. induction u; cbn [Js.digits]; constructor; auto. Qed.

Lemma digits_inj u v : Js.digits u = Js.digits v -> u = v.
Proof.
  revert v. induction u; intros v H; destruct v; cbn in H; try discriminate;
    try reflexivity; injection H as H; f_equal; auto.
Qed.

Lemma ofN_inj a b : Js.ofN a = Js.ofN b -> a = b.
Proof. intros H. apply DecimalN.Unsigned.to_uint_inj, digits_inj, H. Qed.

(** Two texts of digits followed by a hyphen agree up to the hyphen. *)
Lemma digits_hyphen_inj d1 d2 r1 r2 :
  Forall (fun c => isDigit c = true) d1 -> Forall (fun c => isDigit c = true) d2 ->
  d1 ++ 0x2D :: r1 = d2 ++ 0x2D :: r2 -> d1 = d2 /\ r1 = r2.
Proof.
  intros H1. revert d2. induction H1 as [|c d1 Hc _ IH]; intros d2 H2 Heq.
  - destruct H2 as [|c' d2 Hc' _]; cbn in Heq; [now injection Heq as <-|].
    injection Heq as <- _. discriminate.
  - destruct H2 as [|c' d2 Hc' H2]; cbn in Heq.
    + injection Heq as -> _. discriminate.
    + injection Heq as <- Heq. destruct (IH d2 H2 Heq) as [-> ->]. auto.
Qed.

Lemma finalize_id_inj now i j x y :
  item_id (finalize now i x) = item_id (finalize now j y) -> i = j.
Proof.
  cbn [finalize item_id]. intros [= Heq].
  apply digits_hyphen_inj in Heq as [_ Heq]; try apply digits_are_digits.
  apply ofN_inj in Heq. lia.
Qed.

End OutputShape.

(** X6.  The keys of the accepted records stand in the order in which they
    were first accepted: one more candidate appends its key when it is
    accepted under a key not seen before, and otherwise leaves the sequence
    of keys, hence every position, as it was. *)
Theorem accepted_keys_append (allItems : list Item) (item : Item) (fin : list Item) :
  accepted allItems = Some fin ->
  exists fin',
    accepted (allItems ++ [item]) = Some fin'
    /\ keyOf <$> fin' = (keyOf <$> fin) ++ newKey (keyOf <$> fin) item.
Proof.
  intros Hacc. unfold accepted in *. rewrite dedupLoop_app.
  destruct (dedupLoop_ok allItems emptyDedup dedupOk_empty) as (st & Hrun & Hok).
  rewrite Hrun in *. injection Hacc as <-. cbn [mbind option_bind dedupLoop].
  destruct (dedupStep_ok st item Hok) as (st' & Hstep & _). rewrite Hstep.
  exists (finalItems st'). split; [reflexivity|].
  now apply dedupStep_keys.
Qed.

Lemma accepted_keys_append_witness :
  exists fin',
    accepted ([fx_plain; fx_other] ++ [fx_coded]) = Some fin'
    /\ keyOf <$> fin'
       = (keyOf <$> [fx_plain; fx_other]) ++ newKey (keyOf <$> [fx_plain; fx_other]) fx_coded.
Proof.
  apply (accepted_keys_append [fx_plain; fx_other] fx_coded [fx_plain; fx_other]).
  vm_compute. reflexivity.
Defined.

(** X7.  The consolidator invents nothing and lets nothing through: every
    record of the output is the sanitized, numbered copy of a candidate of
    the input whose cleaned standard text has at least 10 units, whose key
    is no table header and does not contain [성취기준코드], whose unit is not
    an echo of the key, and which has a code, a sentence or noun ending, or
    a key of at least 5 units.  The output is no longer than the input. *)
Theorem consolidate_provenance (now : nat -> N) (allItems out : list Item) :
  consolidate now allItems = Some out ->
  (length out <= length allItems)%nat
  /\ forall i o, out !! i = Some o ->
       exists x, x ∈ allItems /\ o = finalize now i x
         /\ (10 <= length (stdTextOf x))%nat
         /\ (keyOf x ∉ headers)
         /\ Js.includes (keyOf x) codeHeader = false
         /\ unitEcho x (keyOf x) = false
         /\ (testCode (stdTextOf x) = true
             \/ Js.endsWithClass isDaClass (bodyTextOf (stdTextOf x)) = true
             \/ Js.endsWithClass isNounClass (bodyTextOf (stdTextOf x)) = true
             \/ (5 <= length (keyOf x))%nat).
Proof.
  unfold consolidate. destruct (accepted allItems) as [fin|] eqn:Hacc; [|discriminate].
  intros [= <-]. rewrite length_imap.
  destruct (accepted_accepts allItems fin Hacc) as [Hall _].
  unfold accepted in Hacc.
  destruct (dedupLoop emptyDedup allItems) as [st|] eqn:Hrun; [|discriminate].
  injection Hacc as <-. destruct (dedupLoop_sub allItems _ _ Hrun) as [Hin Hlen].
  split; [exact Hlen|]. intros i o Ho.
  apply list_lookup_imap_Some in Ho as (x & Hx & ->).
  exists x. split.
  - destruct (Hin x) as [H|H]; [apply list_elem_of_lookup; eauto | | exact H].
    cbn in H. now apply not_elem_of_nil in H.
  - split; [reflexivity|].
    rewrite Forall_lookup in Hall. destruct (Hall i x Hx) as [h Hc].
    exact (classify_Accept_filters x h _ Hc).
Qed.

Lemma consolidate_provenance_witness :
  (length [finalize fx_now 0 fx_coded; finalize fx_now 1 fx_other] <= 
   length [fx_plain; fx_coded; fx_noun; fx_other])%nat
  /\ forall i o, [finalize fx_now 0 fx_coded; finalize fx_now 1 fx_other] !! i = Some o ->
       exists x, x ∈ [fx_plain; fx_coded; fx_noun; fx_other] /\ o = finalize fx_now i x
         /\ (10 <= length (stdTextOf x))%nat
         /\ (keyOf x ∉ headers)
         /\ Js.includes (keyOf x) codeHeader = false
         /\ unitEcho x (keyOf x) = false
         /\ (testCode (stdTextOf x) = true
             \/ Js.endsWithClass isDaClass (bodyTextOf (stdTextOf x)) = true
             \/ Js.endsWithClass isNounClass (bodyTextOf (stdTextOf x)) = true
             \/ (5 <= length (keyOf x))%nat).
Proof.
  apply (consolidate_provenance fx_now [fx_plain; fx_coded; fx_noun; fx_other]).
  vm_compute. reflexivity.
Defined.

(** X8.  Leaving out beforehand the candidates that the filters skip does
    not change the output: filtering and deduplication do not interfere. *)
Theorem consolidate_filter_first (now : nat -> N) (allItems : list Item) :
  consolidate now (List.filter passes allItems) = consolidate now allItems.
Proof. unfold consolidate, accepted. now rewrite dedupLoop_passes. Qed.

(** X9.  The identifiers given to the records of one output are pairwise
    different, whatever the clock reads. *)
Theorem consolidate_ids_distinct (now : nat -> N) (allItems out : list Item) :
  consolidate now allItems = Some out -> NoDup (item_id <$> out).
Proof.
  unfold consolidate. destruct (accepted allItems) as [fin|]; [|discriminate].
  intros [= <-]. apply NoDup_alt. intros i j id Hi Hj.
  rewrite list_lookup_fmap, list_lookup_imap in Hi, Hj.
  destruct (fin !! i) as [x|]; [|discriminate].
  destruct (fin !! j) as [y|]; [|discriminate].
  change (Some (item_id (finalize now i x)) = Some id) in Hi.
  change (Some (item_id (finalize now j y)) = Some id) in Hj.
  apply (finalize_id_inj now i j x y). congruence.
Qed.

Lemma consolidate_ids_distinct_witness :
  NoDup (item_id <$> [finalize fx_now 0 fx_coded; finalize fx_now 1 fx_other]).
Proof.
  apply (consolidate_ids_distinct fx_now [fx_plain; fx_coded; fx_noun; fx_other]).
  vm_compute. reflexivity.
Defined.

(** X10.  The deduplication tests a stored record for a code on its raw
    standard text, and a new candidate on its trimmed text without marker;
    the two tests always agree, also for a record without standard. *)
Theorem stored_code_test_agrees (item : Item) :
  testCode (default undefinedText (item_standard item)) = testCode (stdTextOf item).
Proof. exact (testCode_stored item). Qed.

(** ** PageRangeParser: the tokens act one by one *)

Section ParserTokens.

Variable totalPages : Z.

Lemma setAdd_elem z x pages : z ∈ setAdd x pages <-> z = x \/ z ∈ pages.
Proof.
  unfold setAdd. destruct (decide (x ∈ pages)) as [Hin|Hnin].
  - split; [auto|]. now intros [->|H].
  - rewrite elem_of_app, list_elem_of_singleton. tauto.
Qed.

Lemma foldl_setAdd_elem z is_ : forall pages,
  z ∈ foldl (fun acc i => setAdd (i - 1)%Z acc) pages is_
  <-> z ∈ pages \/ exists i, i ∈ is_ /\ z = (i - 1)%Z.
Proof.
  induction is_ as [|i is_ IH]; intros pages; cbn [foldl].
  - split; [auto|]. intros [H|(i & Hi & _)]; [assumption|].
    now apply elem_of_nil in Hi.
  - rewrite IH, setAdd_elem. split.
    + intros [[->|H]|(j & Hj & ->)]; [right; exists i; split; [left|reflexivity]
                                      | now left | right; exists j; split; [now right|reflexivity]].
    + intros [H|(j & Hj & ->)]; [left; now right|].
      apply elem_of_cons in Hj as [->|Hj]; [left; now left | right; eauto].
Qed.

Lemma addRange_elem z s e pages :
  z ∈ addRange s e pages <-> z ∈ pages \/ (s <= z + 1 <= e)%Z.
Proof.
  unfold addRange. rewrite foldl_setAdd_elem. split.
  - intros [H|(i & Hi & ->)]; [now left|]. apply elem_of_seqZ in Hi. right. lia.
  - intros [H|H]; [now left|]. right. exists (z + 1)%Z.
    split; [apply elem_of_seqZ; lia | lia].
Qed.

(** What a token adds does not depend on the pages gathered before it. *)
Lemma addPart_elem z pages part :
  z ∈ addPart totalPages pages part
  <-> z ∈ pages \/ z ∈ addPart totalPages [] part.
Proof.
  assert (Hnil : forall P : Prop, P <-> P \/ z ∈ ([] : list Z)).
  { intros P. rewrite elem_of_nil. tauto. }
  unfold addPart. destruct (Js.trim part) as [|c t]; [exact (Hnil _)|].
  destruct (Js.includes (c :: t) [45%N]).
  - destruct (splitDash (c :: t)) as [|startStr [|endStr rest]]; try exact (Hnil _).
    destruct (parseInt startStr) as [start|]; [|exact (Hnil _)].
    destruct (parseInt endStr) as [end_|]; [|exact (Hnil _)].
    rewrite !addRange_elem, elem_of_nil. tauto.
  - destruct (parseInt (c :: t)) as [page|]; [|exact (Hnil _)].
    destruct ((1 <=? page)%Z && (page <=? totalPages)%Z); [|exact (Hnil _)].
    rewrite !setAdd_elem, elem_of_nil. tauto.
Qed.

Lemma foldl_addPart_elem z parts : forall pages,
  z ∈ foldl (addPart totalPages) pages parts
  <-> z ∈ pages \/ exists part, part ∈ parts /\ z ∈ addPart totalPages [] part.
Proof.
  induction parts as [|part parts IH]; intros pages; cbn [foldl].
  - split; [auto|]. intros [H|(p & Hp & _)]; [assumption|].
    now apply elem_of_nil in Hp.
  - rewrite IH, addPart_elem. split.
    + intros [[H|H]|(p & Hp & H)]; [now left | right; exists part; split; [left|assumption]
                                    | right; exists p; split; [now right|assumption]].
    + intros [H|(p & Hp & H)]; [left; now left|].
      apply elem_of_cons in Hp as [->|Hp]; [left; now right | right; eauto].
Qed.

(** The pages of the result are the pages of its tokens. *)
Lemma parsePageRange_elem z rangeStr :
  z ∈ parsePageRange rangeStr totalPages
  <-> exists part, part ∈ splitRange rangeStr /\ z ∈ addPart totalPages [] part.
Proof.
  unfold parsePageRange. rewrite merge_sort_Permutation, foldl_addPart_elem.
  rewrite elem_of_nil. tauto.
Qed.

Lemma parsePageRange_strict rangeStr :
  NoDup (parsePageRange rangeStr totalPages)
  /\ StronglySorted Z.lt (parsePageRange rangeStr totalPages).
Proof.
  unfold parsePageRange.
  set (pages := foldl (addPart totalPages) [] (splitRange rangeStr)).
  assert (Hok : pagesOk totalPages pages).
  { apply foldl_addPart_ok. split; constructor. }
  destruct Hok as [Hnd _].
  assert (Hnd' : NoDup (merge_sort Z.le pages)) by (by rewrite merge_sort_Permutation).
  split; [assumption|]. apply StronglySorted_le_lt; [assumption|].
  apply StronglySorted_merge_sort; apply _.
Qed.

End ParserTokens.

(** Strictly ascending lists with the same members are equal. *)
Lemma strictly_sorted_ext (l1 l2 : list Z) :
  NoDup l1 -> NoDup l2 -> StronglySorted Z.lt l1 -> StronglySorted Z.lt l2 ->
  (forall z, z ∈ l1 <-> z ∈ l2) -> l1 = l2.
Proof.
  intros Hn1 Hn2 Hs1 Hs2 Hext.
  apply (StronglySorted_unique_strong Z.lt); try assumption.
  - intros x1 x2 _ _ H12 H21. lia.
  - now apply NoDup_Permutation.
Qed.

Lemma splitRangeFrom_comma a b : forall cur inSpace,
  splitRangeFrom cur inSpace (a ++ 0x2C :: b)
  = splitRangeFrom cur inSpace a ++ splitRange b.
Proof.
  induction a as [|c a IH]; intros cur inSpace; [reflexivity|].
  cbn [app splitRangeFrom]. destruct (c =? 0x2C); [now rewrite IH|].
  destruct (Js.isWhiteSpace c); [|apply IH].
  destruct inSpace; [apply IH | now rewrite IH].
Qed.

(** X11.  Two range expressions joined by a comma select the pages of the
    one and the pages of the other. *)
Theorem parsePageRange_comma (a b : jsstring) (totalPages z : Z) :
  z ∈ parsePageRange (a ++ 0x2C :: b) totalPages
  <-> z ∈ parsePageRange a totalPages \/ z ∈ parsePageRange b totalPages.
Proof.
  rewrite !parsePageRange_elem. unfold splitRange at 1.
  rewrite splitRangeFrom_comma. split.
  - intros (part & Hp & Hz). apply elem_of_app in Hp as [Hp|Hp]; eauto.
  - intros [(part & Hp & Hz)|(part & Hp & Hz)]; exists part;
      (split; [apply elem_of_app; auto | assumption]).
Qed.

(** X12.  The order in which the parts of a range expression are written
    does not matter: swapping the two sides of a comma gives the same
    indices. *)
Theorem parsePageRange_comma_comm (a b : jsstring) (totalPages : Z) :
  parsePageRange (a ++ 0x2C :: b) totalPages
  = parsePageRange (b ++ 0x2C :: a) totalPages.
Proof.
  apply strictly_sorted_ext; try apply parsePageRange_strict.
  intros z. rewrite !parsePageRange_elem. unfold splitRange.
  rewrite !splitRangeFrom_comma. split;
    intros (part & Hp & Hz); exists part; (split; [|assumption]);
    apply elem_of_app; apply elem_of_app in Hp; tauto.
Qed.

(** X13.  A longer document never loses pages: every index selected for
    [n] pages is selected for [m >= n] pages. *)
Theorem parsePageRange_monotone (rangeStr : jsstring) (n m z : Z) :
  (n <= m)%Z -> z ∈ parsePageRange rangeStr n -> z ∈ parsePageRange rangeStr m.
Proof.
  intros Hnm. rewrite !parsePageRange_elem. intros (part & Hp & Hz).
  exists part. split; [assumption|]. revert Hz. unfold addPart.
  destruct (Js.trim part) as [|c t]; [auto|].
  destruct (Js.includes (c :: t) [45%N]).
  - destruct (splitDash (c :: t)) as [|startStr [|endStr rest]]; auto.
    destruct (parseInt startStr) as [start|]; [|auto].
    destruct (parseInt endStr) as [end_|]; [|auto].
    rewrite !addRange_elem, !elem_of_nil. lia.
  - destruct (parseInt (c :: t)) as [page|]; [|auto].
    destruct (Z.leb_spec 1 page); cbn [andb]; [|auto].
    destruct (Z.leb_spec page n); [|intros Hz; now apply elem_of_nil in Hz].
    destruct (Z.leb_spec page m); [auto | lia].
Qed.

Lemma parsePageRange_monotone_witness :
  (2 ∈ parsePageRange (Js.ofAscii "1, 3-5") 10)%Z.
Proof.
  apply (parsePageRange_monotone (Js.ofAscii "1, 3-5") 4 10 2); [lia|].
  vm_compute. apply list_elem_of_In. simpl. auto.
Defined.

(** ** PageRangeParser: numbers written in decimal *)

Section Decimal.

Lemma digit_cases c :
  isDigit c = true ->
  c = 48 \/ c = 49 \/ c = 50 \/ c = 51 \/ c = 52 \/ c = 53 \/ c = 54 \/ c = 55
  \/ c = 56 \/ c = 57.
Proof.
  unfold isDigit. rewrite andb_true_iff, !N.leb_le. lia.
Qed.

(** A digit is no white space, comma, hyphen or plus sign. *)
Lemma digit_plain c :
  isDigit c = true ->
  Js.isWhiteSpace c = false /\ (c =? 0x2C) = false /\ (c =? 0x2D) = false
  /\ (c =? 0x2B) = false.
Proof.
  intros H. apply digit_cases in H.
  repeat (destruct H as [->|H]; [repeat split; reflexivity|]).
  subst c. repeat split; reflexivity.
Qed.

Lemma digitsValue_digit acc c t :
  isDigit c = true ->
  digitsValue acc (c :: t)
  = digitsValue (Some (10 * default 0 acc + Z.of_N (c - 0x30))%Z) t.
Proof. intros H. cbn [digitsValue]. now rewrite H. Qed.

Lemma digitsValue_acc d : forall a,
  digitsValue (Some (Z.pos a)) (Js.digits d) = Some (Z.pos (Pos.of_uint_acc d a)).
Proof.
  induction d; intros a; cbn [Js.digits Pos.of_uint_acc]; [reflexivity|..];
    rewrite digitsValue_digit by reflexivity; rewrite <- IHd; cbn [default];
    unfold id;
    match goal with
    | |- digitsValue (Some ?x) _ = digitsValue (Some ?y) _ =>
        replace x with y by lia
    end; reflexivity.
Qed.

Lemma digitsValue_zero d :
  digitsValue (Some 0%Z) (Js.digits d) = Some (Z.of_N (Pos.of_uint d)).
Proof.
  induction d; cbn [Js.digits Pos.of_uint]; [reflexivity|..];
    rewrite digitsValue_digit by reflexivity; [exact IHd|..];
    cbn [default Z.of_N]; rewrite <- digitsValue_acc; reflexivity.
Qed.

Lemma digitsValue_none d :
  d ≠ Nil -> digitsValue None (Js.digits d) = Some (Z.of_N (Pos.of_uint d)).
Proof.
  intros Hd. rewrite <- digitsValue_zero.
  destruct d; [contradiction|..]; cbn [Js.digits];
    rewrite !digitsValue_digit by reflexivity; reflexivity.
Qed.

Lemma to_uint_nonnil n : N.to_uint n ≠ Nil.
Proof.
  destruct n as [|p]; [discriminate|]. apply DecimalPos.Unsigned.to_uint_nonnil.
Qed.

Lemma ofN_head n : exists c t, Js.ofN n = c :: t /\ isDigit c = true.
Proof.
  unfold Js.ofN. pose proof (to_uint_nonnil n) as Hn.
  pose proof (digits_are_digits (N.to_uint n)) as Hall.
  destruct (N.to_uint n); [contradiction|..]; cbn [Js.digits] in *;
    apply Forall_cons in Hall as [Hc _]; eauto.
Qed.

Lemma parseInt_digits c t :
  isDigit c = true -> parseInt (c :: t) = digitsValue None (c :: t).
Proof.
  intros Hc. destruct (digit_plain c Hc) as (Hws & _ & Hminus & Hplus).
  unfold parseInt, Js.trimStart. cbn [Js.dropWhile]. rewrite Hws, Hminus, Hplus.
  destruct (digitsValue None (c :: t)) as [v|]; [|reflexivity].
  cbn. f_equal. lia.
Qed.

Lemma parseInt_ofN_eq n : parseInt (Js.ofN n) = Some (Z.of_N n).
Proof.
  destruct (ofN_head n) as (c & t & Heq & Hc).
  rewrite Heq, parseInt_digits by assumption. rewrite <- Heq. unfold Js.ofN.
  rewrite digitsValue_none by apply to_uint_nonnil.
  change (Pos.of_uint (N.to_uint n)) with (N.of_uint (N.to_uint n)).
  now rewrite DecimalN.Unsigned.of_to.
Qed.

End Decimal.


(** ** PageRangeParser: a page number and a range of page numbers *)

Section CanonicalTokens.

Lemma dropWhile_head p c t : p c = false -> Js.dropWhile p (c :: t) = c :: t.
Proof. intros H. cbn [Js.dropWhile]. now rewrite H. Qed.

Lemma dropWhile_none p s :
  Forall (fun c => p c = false) s -> Js.dropWhile p s = s.
Proof. intros [|c t Hc _]; [reflexivity | now apply dropWhile_head]. Qed.

Lemma trim_plain s : Forall (fun c => Js.isWhiteSpace c = false) s -> Js.trim s = s.
Proof.
  intros H. unfold Js.trim, Js.trimStart, Js.trimEnd.
  rewrite (dropWhile_none _ s H), dropWhile_none by now apply Forall_rev.
  apply rev_involutive.
Qed.

Lemma splitRangeFrom_plain s :
  Forall (fun c => Js.isWhiteSpace c = false /\ (c =? 0x2C) = false) s ->
  forall cur inSpace, splitRangeFrom cur inSpace s = [rev cur ++ s].
Proof.
  induction 1 as [|c t [Hws Hcomma] _ IH]; intros cur inSpace.
  - cbn. now rewrite app_nil_r.
  - cbn [splitRangeFrom]. rewrite Hcomma, Hws, IH. cbn [rev].
    now rewrite <- app_assoc.
Qed.

Lemma splitDashFrom_digits d :
  Forall (fun c => isDigit c = true) d ->
  forall cur, splitDashFrom cur d = [rev cur ++ d].
Proof.
  induction 1 as [|c t Hc _ IH]; intros cur.
  - cbn. now rewrite app_nil_r.
  - cbn [splitDashFrom]. destruct (digit_plain c Hc) as (_ & _ & -> & _).
    rewrite IH. cbn [rev]. now rewrite <- app_assoc.
Qed.

Lemma splitDashFrom_dash d r :
  Forall (fun c => isDigit c = true) d ->
  forall cur, splitDashFrom cur (d ++ 0x2D :: r) = (rev cur ++ d) :: splitDashFrom [] r.
Proof.
  induction 1 as [|c t Hc _ IH]; intros cur.
  - cbn. now rewrite app_nil_r.
  - cbn [splitDashFrom app]. destruct (digit_plain c Hc) as (_ & _ & -> & _).
    rewrite IH. cbn [rev]. now rewrite <- app_assoc.
Qed.

Lemma includes_dash_digits d :
  Forall (fun c => isDigit c = true) d -> Js.includes d [0x2D] = false.
Proof.
  induction 1 as [|c t Hc _ IH]; [reflexivity|].
  rewrite includes_unit_cons, IH. now destruct (digit_plain c Hc) as (_ & _ & -> & _).
Qed.

Lemma includes_dash_app d r : Js.includes (d ++ 0x2D :: r) [0x2D] = true.
Proof.
  induction d as [|c t IH]; [reflexivity|].
  cbn [app]. rewrite includes_unit_cons, IH. apply orb_true_r.
Qed.

Lemma digits_plain d :
  Forall (fun c => isDigit c = true) d ->
  Forall (fun c => Js.isWhiteSpace c = false /\ (c =? 0x2C) = false) d.
Proof.
  intros H. eapply Forall_impl; [exact H|].
  intros c Hc. destruct (digit_plain c Hc) as (? & ? & _). auto.
Qed.

Lemma range_plain d1 d2 :
  Forall (fun c => isDigit c = true) d1 -> Forall (fun c => isDigit c = true) d2 ->
  Forall (fun c => Js.isWhiteSpace c = false /\ (c =? 0x2C) = false) (d1 ++ 0x2D :: d2).
Proof.
  intros H1 H2. apply Forall_app. split; [now apply digits_plain|].
  constructor; [split; reflexivity | now apply digits_plain].
Qed.

Lemma plain_not_space s :
  Forall (fun c => Js.isWhiteSpace c = false /\ (c =? 0x2C) = false) s ->
  Forall (fun c => Js.isWhiteSpace c = false) s.
Proof. intros H. eapply Forall_impl; [exact H|]. now intros c [? _]. Qed.

(** What the token of a page number adds. *)
Lemma addPart_number totalPages pages n :
  addPart totalPages pages (Js.ofN n)
  = if ((1 <=? Z.of_N n) && (Z.of_N n <=? totalPages))%Z
    then setAdd (Z.of_N n - 1)%Z pages else pages.
Proof.
  pose proof (digits_are_digits (N.to_uint n)) as Hd. fold (Js.ofN n) in Hd.
  unfold addPart.
  rewrite (trim_plain _ (plain_not_space _ (digits_plain _ Hd))).
  rewrite includes_dash_digits, parseInt_ofN_eq by assumption.
  now destruct (ofN_head n) as (c & t & -> & _).
Qed.

(** What the token of a range adds. *)
Lemma addPart_range totalPages pages a b :
  addPart totalPages pages (Js.ofN a ++ 0x2D :: Js.ofN b)
  = addRange (Z.max 1 (Z.min (Z.of_N a) (Z.of_N b)))
             (Z.min totalPages (Z.max (Z.of_N a) (Z.of_N b))) pages.
Proof.
  pose proof (digits_are_digits (N.to_uint a)) as Ha. fold (Js.ofN a) in Ha.
  pose proof (digits_are_digits (N.to_uint b)) as Hb. fold (Js.ofN b) in Hb.
  unfold addPart.
  rewrite (trim_plain _ (plain_not_space _ (range_plain _ _ Ha Hb))).
  rewrite includes_dash_app. unfold splitDash.
  rewrite splitDashFrom_dash, splitDashFrom_digits by assumption. cbn [rev app].
  rewrite !parseInt_ofN_eq.
  now destruct (ofN_head a) as (c & t & -> & _).
Qed.

Lemma StronglySorted_seqZ len : forall m,
  StronglySorted Z.lt (seqZ m (Z.of_nat len)).
Proof.
  induction len as [|len IH]; intros m; [constructor|].
  rewrite seqZ_cons by lia. constructor.
  - replace (Z.pred (Z.of_nat (S len))) with (Z.of_nat len) by lia. apply IH.
  - apply Forall_forall. intros z Hz. apply elem_of_seqZ in Hz. lia.
Qed.

Lemma StronglySorted_seqZ_any m n : StronglySorted Z.lt (seqZ m n).
Proof.
  destruct (Z.le_gt_cases n 0) as [Hn|Hn]; [rewrite seqZ_nil by lia; constructor|].
  rewrite <- (Z2Nat.id n) by lia. apply StronglySorted_seqZ.
Qed.

End CanonicalTokens.

(** X15.  A range expression that is one page number [n] selects the index
    [n - 1] when [1 <= n <= totalPages], and nothing otherwise. *)
Theorem parsePageRange_number (n : N) (totalPages : Z) :
  parsePageRange (Js.ofN n) totalPages
  = if ((1 <=? Z.of_N n) && (Z.of_N n <=? totalPages))%Z
    then [(Z.of_N n - 1)%Z] else [].
Proof.
  unfold parsePageRange, splitRange.
  rewrite splitRangeFrom_plain by apply digits_plain, digits_are_digits.
  cbn [rev app foldl]. rewrite addPart_number.
  now destruct ((1 <=? Z.of_N n) && (Z.of_N n <=? totalPages))%Z.
Qed.

(** X16.  A range expression [a-b] selects the indices of the pages from
    [max(1, min(a, b))] to [min(totalPages, max(a, b))], in ascending order,
    whichever end is written first. *)
Theorem parsePageRange_range (a b : N) (totalPages : Z) :
  let s := Z.max 1 (Z.min (Z.of_N a) (Z.of_N b)) in
  let e := Z.min totalPages (Z.max (Z.of_N a) (Z.of_N b)) in
  parsePageRange (Js.ofN a ++ 0x2D :: Js.ofN b) totalPages
  = seqZ (s - 1) (e - s + 1).
Proof.
  intros s e. apply strictly_sorted_ext.
  - apply parsePageRange_strict.
  - apply NoDup_seqZ.
  - apply parsePageRange_strict.
  - apply StronglySorted_seqZ_any.
  - intros z. rewrite parsePageRange_elem. unfold splitRange.
    rewrite splitRangeFrom_plain by (apply range_plain; apply digits_are_digits).
    cbn [rev app]. rewrite elem_of_seqZ. split.
    + intros (part & Hp & Hz). apply list_elem_of_singleton in Hp. subst part.
      rewrite addPart_range, addRange_elem, elem_of_nil in Hz. subst s e. lia.
    + intros Hz. eexists. split; [apply list_elem_of_singleton; reflexivity|].
      rewrite addPart_range, addRange_elem. right. subst s e. lia.
Qed.

(** ** ChunkScheduler: how many chunks, and which *)

Section ChunkShape.

Variable K : nat.
Hypothesis K_pos : (0 < K)%nat.

Lemma chunkLoop_shape (l : list Z) : forall fuel i chunks,
  chunkLoop K l fuel i = Some chunks ->
  (length l - i <= length chunks * K < length l - i + K)%nat
  /\ (forall j c, chunks !! j = Some c -> c = take K (drop (i + j * K) l)).
Proof.
  induction fuel as [|fuel IH]; intros i chunks; cbn [chunkLoop];
    destruct (Nat.ltb_spec i (length l)) as [Hlt|Hge]; try discriminate.
  - intros [= <-]. split; [simpl; lia|]. intros j c Hj.
    now rewrite lookup_nil in Hj.
  - destruct (chunkLoop K l fuel (i + K)) as [rest|] eqn:Hrest; [|discriminate].
    intros [= <-]. destruct (IH _ _ Hrest) as [Hlen Hat]. split.
    + cbn [length]. destruct (length rest) as [|n]; cbn [Nat.mul] in *; lia.
    + intros [|j] c Hj.
      * injection Hj as <-. rewrite slice_stride by assumption.
        now rewrite Nat.add_0_r.
      * cbn in Hj. rewrite (Hat j c Hj). do 2 f_equal. lia.
  - intros [= <-]. split; [simpl; lia|]. intros j c Hj.
    now rewrite lookup_nil in Hj.
Qed.

End ChunkShape.

(** X17.  The scheduler makes as many chunks as it takes to hold the indices,
    chunk size [K] at a time (the number of indices divided by [K], rounded
    up), and chunk [j] holds the [K] indices from position [j * K] on, or
    what is left of them. *)
Theorem chunkIndices_shape (K : nat) (requestedIndices : list Z) (chunks : list (list Z)) :
  (0 < K)%nat ->
  chunkIndices K requestedIndices = Some chunks ->
  (length requestedIndices <= length chunks * K < length requestedIndices + K)%nat
  /\ (forall j c, chunks !! j = Some c -> c = take K (drop (j * K) requestedIndices)).
Proof.
  intros HK Hrun. destruct (chunkLoop_shape K HK _ _ _ _ Hrun) as [Hlen Hat].
  split; [lia | exact Hat].
Qed.

Lemma chunkIndices_shape_witness :
  (length [0; 1; 2; 3; 4; 5; 6]%Z <= length [[0; 1; 2]; [3; 4; 5]; [6]]%Z * CHUNK_SIZE
   < length [0; 1; 2; 3; 4; 5; 6]%Z + CHUNK_SIZE)%nat
  /\ (forall j c, [[0; 1; 2]; [3; 4; 5]; [6]]%Z !! j = Some c ->
        c = take CHUNK_SIZE (drop (j * CHUNK_SIZE) [0; 1; 2; 3; 4; 5; 6]%Z)).
Proof.
  apply (chunkIndices_shape CHUNK_SIZE [0; 1; 2; 3; 4; 5; 6]%Z).
  - unfold CHUNK_SIZE. lia.
  - reflexivity.
Defined.

(** ** DocumentSlicer: what a successful slice holds *)

Section SlicerContent.

Lemma foldl_snoc_id (pages : list Page) : forall doc : list Page,
  foldl (fun doc page => doc ++ [page]) doc pages = doc ++ pages.
Proof.
  induction pages as [|p pages IH]; intros doc; cbn [foldl].
  - now rewrite app_nil_r.
  - rewrite IH. now rewrite <- app_assoc.
Qed.

(** Copying succeeds exactly when every index is one of the document, and
    then yields the pages at these indices, in the order of the indices. *)
Lemma copyPages_Resolved pdfDoc pageIndices pages :
  copyPages pdfDoc pageIndices = Resolved pages
  <-> Forall2 (fun (i : Z) page => (0 <= i)%Z /\ pdfDoc !! Z.to_nat i = Some page)
              pageIndices pages.
Proof.
  unfold copyPages.
  destruct (mapM _ pageIndices) as [ps|] eqn:Hm.
  - apply mapM_Some in Hm. split.
    + intros [= <-]. eapply Forall2_impl; [exact Hm|]. intros i page Hi. cbn in Hi.
      destruct (Z.leb_spec 0 i); [auto | discriminate].
    + intros H. f_equal. revert ps Hm. induction H as [|i page is_ ps' [Hi Hp] _ IH];
        intros ps Hm; inversion Hm as [|? y ? ys Hy Hrest]; subst; [reflexivity|].
      cbn in Hy. destruct (Z.leb_spec 0 i); [|lia]. f_equal; [congruence | auto].
  - split; [discriminate|]. intros H. exfalso.
    apply mapM_None in Hm. apply Exists_exists in Hm as (i & Hin & Hnone).
    apply list_elem_of_lookup in Hin as [j Hj].
    destruct (Forall2_lookup_l _ _ _ j i H Hj) as (page & _ & Hi & Hp).
    cbn in Hnone. destruct (Z.leb_spec 0 i); [congruence | lia].
Qed.

Lemma copyPages_in_range pdfDoc pageIndices :
  Forall (fun i => 0 <= i < Z.of_nat (length pdfDoc))%Z pageIndices ->
  exists pages, copyPages pdfDoc pageIndices = Resolved pages.
Proof.
  intros Hall. unfold copyPages.
  destruct (mapM_is_Some_2 (fun i : Z => if (0 <=? i)%Z then pdfDoc !! Z.to_nat i else None)
              pageIndices) as [pages ->]; [|eauto].
  eapply Forall_impl; [exact Hall|]. intros i Hi. unfold compose. cbn beta in *.
  destruct (Z.leb_spec 0 i); [|lia]. apply lookup_lt_is_Some. lia.
Qed.

Lemma in_concat_elem (i : Z) (chunks : list (list Z)) :
  (exists c, c ∈ chunks /\ i ∈ c) -> i ∈ concat chunks.
Proof.
  intros (c & Hc & Hi). apply list_elem_of_In, in_concat. exists c.
  split; now apply list_elem_of_In.
Qed.

Lemma parsePageRange_in_range rangeStr totalPages :
  Forall (fun i => 0 <= i < totalPages)%Z (parsePageRange rangeStr totalPages).
Proof.
  unfold parsePageRange. rewrite merge_sort_Permutation.
  apply (foldl_addPart_ok totalPages). split; constructor.
Qed.

Lemma extractPdfPagesByIndices_loaded env file pageIndices pdfDoc pages :
  file_pdf file = Resolved pdfDoc ->
  copyPages pdfDoc pageIndices = Resolved pages ->
  extractPdfPagesByIndices env file pageIndices
  = match pageIndices, saveAsBase64 env pages with
    | [], _ => Resolved None
    | _ :: _, Resolved data => Resolved (Some data)
    | _ :: _, Rejected _ => Resolved None
    end.
Proof.
  intros Hload Hcopy. unfold extractPdfPagesByIndices.
  destruct pageIndices as [|i0 rest]; [reflexivity|]. cbn [length Nat.eqb].
  rewrite Hload. cbn [mbind outcome_bind]. rewrite Hcopy. cbn [mbind outcome_bind].
  rewrite foldl_snoc_id. cbn [app].
  now destruct (saveAsBase64 env pages).
Qed.

End SlicerContent.

(** X18.  When the slicer yields a document, the source could be read, the
    index sequence was not empty, and what was written is made of the
    source's pages at these indices, one for each index and in their order. *)
Theorem extractPdfPagesByIndices_content (env : Env) (file : File)
    (pageIndices : list Z) (data : jsstring) :
  extractPdfPagesByIndices env file pageIndices = Resolved (Some data) ->
  pageIndices ≠ []
  /\ exists pdfDoc pages,
       file_pdf file = Resolved pdfDoc
       /\ Forall2 (fun (i : Z) page => (0 <= i)%Z /\ pdfDoc !! Z.to_nat i = Some page)
                  pageIndices pages
       /\ saveAsBase64 env pages = Resolved data.
Proof.
  unfold extractPdfPagesByIndices.
  destruct pageIndices as [|i0 rest]; [discriminate|]. cbn [length Nat.eqb].
  intros H. split; [discriminate|].
  destruct (file_pdf file) as [pdfDoc|e]; [|discriminate]. cbn in H.
  destruct (copyPages pdfDoc (i0 :: rest)) as [pages|e] eqn:Hcopy; [|discriminate].
  cbn in H. rewrite foldl_snoc_id in H. cbn [app] in H.
  destruct (saveAsBase64 env pages) as [d|e] eqn:Hsave; [|discriminate].
  injection H as <-. exists pdfDoc, pages.
  split; [reflexivity|]. split; [now apply copyPages_Resolved | assumption].
Qed.

Lemma extractPdfPagesByIndices_content_witness :
  [1%Z; 0%Z] ≠ []
  /\ exists pdfDoc pages,
       file_pdf fx_pdf = Resolved pdfDoc
       /\ Forall2 (fun (i : Z) page => (0 <= i)%Z /\ pdfDoc !! Z.to_nat i = Some page)
                  [1%Z; 0%Z] pages
       /\ saveAsBase64 fx_env_down pages = Resolved (Js.ofAscii "JVBERi0=").
Proof.
  apply (extractPdfPagesByIndices_content fx_env_down fx_pdf [1; 0]%Z).
  reflexivity.
Defined.

(** X19.  Every chunk the scheduler makes of the pages a range expression
    selects in a document can be copied out of that document: the copy
    never throws for an index outside the document. *)
Theorem chunks_can_be_copied (pdfDoc : list Page) (pageRange : jsstring)
    (chunks : list (list Z)) (indices : list Z) :
  chunkIndices CHUNK_SIZE (parsePageRange pageRange (Z.of_nat (length pdfDoc)))
  = Some chunks ->
  indices ∈ chunks ->
  exists pages, copyPages pdfDoc indices = Resolved pages
                /\ length pages = length indices.
Proof.
  intros Hrun Hin.
  set (requested := parsePageRange pageRange (Z.of_nat (length pdfDoc))) in *.
  destruct (chunkLoop_spec CHUNK_SIZE ltac:(unfold CHUNK_SIZE; lia)
              requested (length requested) 0)
    as (chunks' & Hrun' & Hcat & _); [lia|].
  unfold chunkIndices in Hrun. rewrite Hrun in Hrun'. injection Hrun' as <-.
  rewrite drop_0 in Hcat.
  assert (Hrange : Forall (fun i => 0 <= i < Z.of_nat (length pdfDoc))%Z indices).
  { apply Forall_forall. intros i Hi.
    pose proof (parsePageRange_in_range pageRange (Z.of_nat (length pdfDoc))) as Hall.
    fold requested in Hall. rewrite <- Hcat in Hall.
    rewrite Forall_forall in Hall. apply Hall.
    apply in_concat_elem. eauto. }
  destruct (copyPages_in_range pdfDoc indices Hrange) as [pages Hcopy].
  exists pages. split; [assumption|].
  apply copyPages_Resolved in Hcopy. symmetry. eapply Forall2_length, Hcopy.
Qed.

Lemma chunks_can_be_copied_witness :
  exists pages,
    copyPages [Js.ofAscii "p1"; Js.ofAscii "p2"; Js.ofAscii "p3"; Js.ofAscii "p4"]
              [3%Z] = Resolved pages
    /\ length pages = length [3%Z].
Proof.
  apply (chunks_can_be_copied
           [Js.ofAscii "p1"; Js.ofAscii "p2"; Js.ofAscii "p3"; Js.ofAscii "p4"]
           (Js.ofAscii "1-9") [[0; 1; 2]; [3]]%Z [3%Z]).
  - vm_compute. reflexivity.
  - apply list_elem_of_In. simpl. auto.
Defined.

Lemma extractPdfPages_loaded (env : Env) (file : File) (pageRange : jsstring)
    (pdfDoc : list Page) :
  file_pdf file = Resolved pdfDoc ->
  let indices := parsePageRange pageRange (Z.of_nat (length pdfDoc)) in
  exists pages,
    copyPages pdfDoc indices = Resolved pages
    /\ extractPdfPages env file pageRange
       = match indices, saveAsBase64 env pages with
         | [], _ => Resolved None
         | _ :: _, Resolved data => Resolved (Some data)
         | _ :: _, Rejected _ => Resolved None
         end.
Proof.
  intros Hload indices.
  destruct (copyPages_in_range pdfDoc indices) as [pages Hcopy];
    [apply parsePageRange_in_range|].
  exists pages. split; [assumption|].
  unfold extractPdfPages. rewrite Hload.
  change (tryCatch (extractPdfPagesByIndices env file indices) (fun _ => Resolved None)
          = match indices, saveAsBase64 env pages with
            | [], _ => Resolved None
            | _ :: _, Resolved data => Resolved (Some data)
            | _ :: _, Rejected _ => Resolved None
            end).
  rewrite (extractPdfPagesByIndices_loaded env file indices pdfDoc pages Hload Hcopy).
  destruct indices; [reflexivity|]. now destruct (saveAsBase64 env pages).
Qed.

(** X20.  The slicing wrapper never rejects.  For a document that can be
    read, copying cannot fail: the wrapper yields [null] when the range
    selects no page or the new document cannot be written, and otherwise
    the written document. *)
Theorem extractPdfPages_result (env : Env) (file : File) (pageRange : jsstring)
    (pdfDoc : list Page) :
  file_pdf file = Resolved pdfDoc ->
  let indices := parsePageRange pageRange (Z.of_nat (length pdfDoc)) in
  exists pages,
    copyPages pdfDoc indices = Resolved pages
    /\ extractPdfPages env file pageRange
       = match indices, saveAsBase64 env pages with
         | [], _ => Resolved None
         | _ :: _, Resolved data => Resolved (Some data)
         | _ :: _, Rejected _ => Resolved None
         end.
Proof. exact (extractPdfPages_loaded env file pageRange pdfDoc). Qed.

Lemma extractPdfPages_result_witness :
  exists pages,
    copyPages [Js.ofAscii "page 1"; Js.ofAscii "page 2"]
              (parsePageRange (Js.ofAscii "2, 7") 2%Z) = Resolved pages
    /\ extractPdfPages fx_env_down fx_pdf (Js.ofAscii "2, 7")
       = match parsePageRange (Js.ofAscii "2, 7") 2%Z, saveAsBase64 fx_env_down pages with
         | [], _ => Resolved None
         | _ :: _, Resolved data => Resolved (Some data)
         | _ :: _, Rejected _ => Resolved None
         end.
Proof.
  apply (extractPdfPages_result fx_env_down fx_pdf (Js.ofAscii "2, 7")
           [Js.ofAscii "page 1"; Js.ofAscii "page 2"]).
  reflexivity.
Defined.

(** ** The whole operation: which failures reach the caller *)

Section Containment.

Variable env : Env.

Lemma analyzeChunk_settles chunkContent prompt i :
  exists records, analyzeChunk env chunkContent prompt i = Resolved records.
Proof.
  unfold analyzeChunk, tryCatch.
  destruct (_ ≫= _); eauto.
Qed.

Lemma chunkPromise_settles file prompt i indices :
  exists records, chunkPromise env file prompt i indices = Resolved records.
Proof.
  unfold chunkPromise.
  destruct (extractPdfPagesByIndices_settles env file indices) as [[[|c t]|] ->];
    cbn; eauto using analyzeChunk_settles.
Qed.

Lemma promiseAll_settles (chunks : list (list Z)) :
  forall f : nat -> list Z -> Outcome (list Item),
  (forall i indices, exists records, f i indices = Resolved records) ->
  exists results, promiseAll (imap f chunks) = Resolved results.
Proof.
  induction chunks as [|c rest IH]; intros f Hf; [by exists []|].
  rewrite imap_cons. cbn [promiseAll]. destruct (Hf 0%nat c) as [r ->]. cbn.
  destruct (IH (f ∘ S)) as [results ->]; [intros i x; apply Hf|]. cbn. eauto.
Qed.

(** In the chunked run only reading the document can fail. *)
Lemma chunkedExtraction_rejects file prompt range e :
  chunkedExtraction env file prompt range = Rejected e ->
  file_pdf file = Rejected e \/ e = Diverges.
Proof.
  unfold chunkedExtraction. destruct (file_pdf file) as [pdfDoc|e']; cbn.
  - destruct (length _ =? 0)%nat; [discriminate|].
    destruct (chunkIndices CHUNK_SIZE _) as [chunks|]; [|intros [= <-]; auto].
    destruct (promiseAll_settles chunks (chunkPromise env file prompt)) as [results ->];
      [intros i x; apply chunkPromise_settles|].
    discriminate.
  - intros [= <-]. auto.
Qed.




End Containment.



(** X22.  When the page range of a PDF selects no page of the document,
    the operation resolves with the empty list at once: no extraction call
    is made and no fallback to the whole file is tried, so the answer does
    not depend on the service or on whether the file can be read again. *)
Theorem no_valid_pages_gives_empty_list (env : Env) (file : File)
    (prompt range : jsstring) (pageRange : option jsstring)
    (c : N) (key : jsstring) (pdfDoc : list Page) :
  getApiKey env = Some (c :: key) ->
  file_mime file = mimePdf ->
  hasPageRange pageRange = Some range ->
  file_pdf file = Resolved pdfDoc ->
  parsePageRange range (Z.of_nat (length pdfDoc)) = [] ->
  parseStandardsAndGeneratePlan env file prompt pageRange = Resolved [].
Proof.
  intros Hkey Hmime Hrange Hload Hnone.
  unfold parseStandardsAndGeneratePlan, chunkedExtraction.
  rewrite Hkey, Hmime, Hrange, Hload. unfold Js.eqb.
  rewrite bool_decide_eq_true_2 by reflexivity.
  cbn [mbind outcome_bind]. rewrite Hnone. reflexivity.
Qed.

Lemma no_valid_pages_gives_empty_list_witness :
  parseStandardsAndGeneratePlan fx_env_down fx_pdf [] (Some (Js.ofAscii "0, 7-9"))
  = Resolved [].
Proof.
  eapply (no_valid_pages_gives_empty_list fx_env_down fx_pdf [] _ _ _ _ _);
    reflexivity.
Defined.

(** ** The helpers around the key and the file *)

Section Helpers.

Lemma splitCommaFrom_plain s :
  Forall (fun c => (c =? 0x2C) = false) s ->
  forall cur, splitCommaFrom cur s = [rev cur ++ s].
Proof.
  induction 1 as [|c t Hc _ IH]; intros cur.
  - cbn. now rewrite app_nil_r.
  - cbn [splitCommaFrom]. rewrite Hc, IH. cbn [rev]. now rewrite <- app_assoc.
Qed.

Lemma splitCommaFrom_comma p r :
  Forall (fun c => (c =? 0x2C) = false) p ->
  forall cur, splitCommaFrom cur (p ++ 0x2C :: r) = (rev cur ++ p) :: splitCommaFrom [] r.
Proof.
  induction 1 as [|c t Hc _ IH]; intros cur.
  - cbn. now rewrite app_nil_r.
  - cbn [splitCommaFrom app]. rewrite Hc, IH. cbn [rev]. now rewrite <- app_assoc.
Qed.

End Helpers.

(** X23.  [requireApiKey] never hands out an empty key: it yields [null]
    exactly when neither the local storage nor the environment holds a
    non-empty key, and otherwise the stored key if there is one and the
    key of the environment if not. *)
Theorem requireApiKeyFrom_spec (storedKey envKey : option jsstring) :
  (requireApiKeyFrom storedKey envKey = None
   <-> truthy storedKey = false /\ truthy envKey = false)
  /\ (forall key, requireApiKeyFrom storedKey envKey = Some key ->
        key ≠ []
        /\ (truthy storedKey = true -> storedKey = Some key)
        /\ (truthy storedKey = false -> envKey = Some key)).
Proof.
  unfold requireApiKeyFrom, getApiKeyFrom.
  destruct storedKey as [[|c k]|], envKey as [[|c' k']|]; cbn;
    (split; [split; [try discriminate; auto | intros [? ?]; try discriminate; auto]
            | intros key; try discriminate; intros [= <-];
              repeat split; try discriminate; auto]).
Qed.

(** X24.  [getMimeType] never yields an empty type: a declared type is
    kept as it is, and without one the type is one of the four the module
    knows, PDF when the name tells nothing. *)
Theorem getMimeType_known (toLowerCase : jsstring -> jsstring) (type name : jsstring) :
  getMimeType toLowerCase type name ≠ []
  /\ (type ≠ [] -> getMimeType toLowerCase type name = type)
  /\ (type = [] ->
      getMimeType toLowerCase type name
      ∈ [Js.ofAscii "application/pdf"; Js.ofAscii "text/plain";
         Js.ofAscii "image/jpeg"; Js.ofAscii "image/png"]).
Proof.
  unfold getMimeType. destruct type as [|c t].
  - split; [|split; [congruence|intros _]];
      destruct (endsWith _ _); try discriminate; try (repeat constructor; fail);
      destruct (endsWith _ _); try discriminate; try (repeat constructor; fail);
      destruct (_ || _); try discriminate; try (repeat constructor; fail);
      destruct (endsWith _ _); try discriminate; repeat constructor.
  - split; [discriminate|]. split; [reflexivity | discriminate].
Qed.

(** X25.  [fileToBase64] yields what stands between the first and the
    second comma of the data URL.  For a URL made of a prefix and a payload
    without commas, as Base64 text is, that is the payload; when the URL
    has no comma at all it yields [undefined]. *)
Theorem fileToBase64_payload (prefix payload : jsstring) :
  Forall (fun c => (c =? 0x2C) = false) prefix ->
  Forall (fun c => (c =? 0x2C) = false) payload ->
  fileToBase64 (Resolved (prefix ++ 0x2C :: payload)) = Resolved (Some payload)
  /\ fileToBase64 (Resolved prefix) = Resolved None.
Proof.
  intros Hp Hd. unfold fileToBase64, splitComma. cbn [mbind outcome_bind]. split.
  - rewrite splitCommaFrom_comma, splitCommaFrom_plain by assumption. reflexivity.
  - rewrite splitCommaFrom_plain by assumption. reflexivity.
Qed.

Lemma fileToBase64_payload_witness :
  fileToBase64 (Resolved (Js.ofAscii "data:application/pdf;base64" ++ 0x2C
                          :: Js.ofAscii "JVBERi0xLjc="))
  = Resolved (Some (Js.ofAscii "JVBERi0xLjc="))
  /\ fileToBase64 (Resolved (Js.ofAscii "data:application/pdf;base64")) = Resolved None.
Proof.
  apply (fileToBase64_payload (Js.ofAscii "data:application/pdf;base64")
           (Js.ofAscii "JVBERi0xLjc=")).
  - vm_compute. repeat constructor.
  - vm_compute. repeat constructor.
Defined.

(** ** The semester levels *)

Section Semester.

Variable env : Env.
Variable parseLevels : jsstring -> Outcome Levels.

Lemma semester_settles file prompt pageRange :
  exists levels,
    generateSemesterStandardsFromDomainFile env parseLevels file prompt pageRange
    = Resolved levels.
Proof.
  unfold generateSemesterStandardsFromDomainFile.
  destruct (getApiKey env) as [[|c k]|]; eauto.
  destruct (semesterContentParts env file pageRange); eauto.
  unfold tryCatch. destruct (_ ≫= _); eauto.
Qed.

Lemma semester_blank file prompt pageRange :
  truthy (getApiKey env) = false
  \/ (forall i contents, exists e, generateContent env i contents = Rejected e)
  \/ (exists e, semesterContentParts env file pageRange = Rejected e) ->
  generateSemesterStandardsFromDomainFile env parseLevels file prompt pageRange
  = Resolved blankLevels.
Proof.
  unfold generateSemesterStandardsFromDomainFile.
  destruct (getApiKey env) as [[|c k]|]; try reflexivity. cbn [truthy].
  intros [Hkey|[Hdown|[e He]]]; [discriminate| |now rewrite He].
  destruct (semesterContentParts env file pageRange) as [parts|e]; [|reflexivity].
  destruct (Hdown 0%nat (parts ++ [Text prompt])) as [e ->]. reflexivity.
Qed.

Lemma extractPdfPages_nothing file pageRange :
  (exists e, file_pdf file = Rejected e)
  \/ (exists pdfDoc, file_pdf file = Resolved pdfDoc
                     /\ parsePageRange pageRange (Z.of_nat (length pdfDoc)) = []) ->
  extractPdfPages env file pageRange = Resolved None.
Proof.
  intros [[e He]|(pdfDoc & Hload & Hnone)].
  - unfold extractPdfPages. now rewrite He.
  - destruct (extractPdfPages_loaded env file pageRange pdfDoc Hload)
      as (pages & _ & ->).
    now rewrite Hnone.
Qed.

End Semester.

(** X26.  The semester-level analysis never rejects, and it answers with
    the blank levels [{A: '', B: '', C: ''}] when the API key is missing,
    when the file cannot be read, or when the extraction service fails. *)
Theorem semester_levels_settle (env : Env) (parseLevels : jsstring -> Outcome Levels)
    (file : File) (prompt : jsstring) (pageRange : option jsstring) :
  exists levels,
    generateSemesterStandardsFromDomainFile env parseLevels file prompt pageRange
    = Resolved levels
    /\ (truthy (getApiKey env) = false
        \/ (forall i contents, exists e, generateContent env i contents = Rejected e)
        \/ (exists e, semesterContentParts env file pageRange = Rejected e) ->
        levels = blankLevels).
Proof.
  destruct (semester_settles env parseLevels file prompt pageRange) as [levels Hl].
  exists levels. split; [assumption|]. intros Hfail.
  rewrite (semester_blank env parseLevels file prompt pageRange Hfail) in Hl.
  congruence.
Qed.

(** X27.  For the semester levels, a PDF whose page range is not empty but
    selects no page, or which cannot be opened for slicing, is sent whole:
    the contents are the Base64 text of the file, and only a failure to
    read the file is a failure.  (The plan extraction returns the empty
    list in the first case.) *)
Theorem semester_contents_fall_back (env : Env) (file : File) (c : N) (range : jsstring) :
  file_mime file = mimePdf ->
  (exists e, file_pdf file = Rejected e)
  \/ (exists pdfDoc, file_pdf file = Resolved pdfDoc
                     /\ parsePageRange (c :: range) (Z.of_nat (length pdfDoc)) = []) ->
  semesterContentParts env file (Some (c :: range))
  = match file_base64 file with
    | Resolved data => Resolved [InlineData mimePdf data]
    | Rejected e => Rejected e
    end.
Proof.
  intros Hmime Hnothing. unfold semesterContentParts. rewrite Hmime.
  unfold Js.eqb at 1. rewrite bool_decide_eq_true_2 by reflexivity.
  rewrite (extractPdfPages_nothing env file (c :: range) Hnothing).
  cbn [mbind outcome_bind]. now destruct (file_base64 file).
Qed.

Lemma semester_contents_fall_back_witness :
  semesterContentParts fx_env_down fx_pdf (Some (0x39 :: Js.ofAscii "-12"))
  = match file_base64 fx_pdf with
    | Resolved data => Resolved [InlineData mimePdf data]
    | Rejected e => Rejected e
    end.
Proof.
  apply (semester_contents_fall_back fx_env_down fx_pdf 0x39 (Js.ofAscii "-12")).
  - reflexivity.
  - right. eexists. split; reflexivity.
Defined.

(** ** The caller: applying the analysis to the plan data *)

Section Caller.

Lemma applyPlans_prefix plans newPlans :
  exists added, applyPlans plans newPlans = plans ++ added
                /\ (added = [] \/ newPlans = Some added).
Proof.
  destruct newPlans as [[|p ps]|]; cbn.
  - exists []. rewrite app_nil_r. auto.
  - exists (p :: ps). auto.
  - exists []. rewrite app_nil_r. auto.
Qed.

Lemma level_choice (o : option jsstring) (old : jsstring) :
  (if truthy o then default [] o else old) = old
  \/ ((if truthy o then default [] o else old) ≠ []
      /\ o = Some (if truthy o then default [] o else old)).
Proof.
  destruct o as [[|c t]|]; cbn;
    [left; reflexivity | right; split; [discriminate | reflexivity] | left; reflexivity].
Qed.

Lemma applyStandards_levels scale old stdResult :
  let new := applyStandards scale old stdResult in
  (std_A new = std_A old \/ std_A new ≠ [])
  /\ (std_B new = std_B old \/ std_B new ≠ [])
  /\ (std_C new = std_C old \/ std_C new ≠ [])
  /\ (std_D new = std_D old \/ (std_D new ≠ [] /\ scale = Scale5))
  /\ (std_E new = std_E old \/ (std_E new ≠ [] /\ scale = Scale5)).
Proof.
  unfold applyStandards. destruct stdResult as [r|]; [|cbn; tauto].
  destruct (truthy (lv_A r) || truthy (lv_B r) || truthy (lv_C r)); [|cbn; tauto].
  destruct (level_choice (lv_A r) (std_A old)) as [Ha|[Ha _]],
           (level_choice (lv_B r) (std_B old)) as [Hb|[Hb _]],
           (level_choice (lv_C r) (std_C old)) as [Hc|[Hc _]],
           (level_choice (lv_D r) (std_D old)) as [Hd|[Hd _]],
           (level_choice (lv_E r) (std_E old)) as [He|[He _]];
    destruct scale; cbn; auto 10.
Qed.

Lemma applyStandards_blank scale old :
  applyStandards scale old (Some blankLevels) = old.
Proof. reflexivity. Qed.

End Caller.

(** X28.  The unified analysis never drops or reorders a teaching plan: the
    plans it hands on are the old ones followed by the records of the plan
    extraction, or the old ones alone when the extraction rejected or found
    nothing; the achievement scale stays as it was. *)
Theorem analysis_keeps_plans (env : Env) (parseLevels : jsstring -> Outcome Levels)
    (data newData : PlanData) (file : option File) (subject : jsstring)
    (confirmed : bool) (planPrompt stdPrompt planPageRange stdPageRange : jsstring) :
  handleUnifiedAnalysis env parseLevels data file subject confirmed
    planPrompt stdPrompt planPageRange stdPageRange = Some newData ->
  achievementScale newData = achievementScale data
  /\ exists f added,
       file = Some f
       /\ teachingPlans newData = teachingPlans data ++ added
       /\ (added = []
           \/ parseStandardsAndGeneratePlan env f planPrompt (Some planPageRange)
              = Resolved added).
Proof.
  unfold handleUnifiedAnalysis.
  destruct file as [f|]; [|discriminate]. destruct subject as [|c s]; [discriminate|].
  destruct confirmed; [|discriminate]. intros [= <-]. cbn [achievementScale teachingPlans].
  split; [reflexivity|]. exists f.
  destruct (applyPlans_prefix (teachingPlans data)
              (catchNull (parseStandardsAndGeneratePlan env f planPrompt
                            (Some planPageRange)))) as (added & Heq & Hadded).
  exists added. split; [reflexivity|]. split; [exact Heq|].
  destruct Hadded as [->|Hsome]; [now left|]. right.
  destruct (parseStandardsAndGeneratePlan env f planPrompt (Some planPageRange));
    cbn in Hsome; congruence.
Qed.

(** A run of the handler for the witnesses: the service is down. *)
Lemma analysis_keeps_plans_witness :
  achievementScale (mkPlanData [fx_coded] (mkStandards [] [] [] [] []) Scale3)
  = achievementScale (mkPlanData [fx_coded] (mkStandards [] [] [] [] []) Scale3)
  /\ exists f added,
       Some fx_pdf = Some f
       /\ teachingPlans (mkPlanData [fx_coded] (mkStandards [] [] [] [] []) Scale3)
          = teachingPlans (mkPlanData [fx_coded] (mkStandards [] [] [] [] []) Scale3)
            ++ added
       /\ (added = []
           \/ parseStandardsAndGeneratePlan fx_env_down f [] (Some (Js.ofAscii "1-2"))
              = Resolved added).
Proof.
  apply (analysis_keeps_plans fx_env_down (fun _ => Rejected JsonSyntaxError)
           (mkPlanData [fx_coded] (mkStandards [] [] [] [] []) Scale3)
           (mkPlanData [fx_coded] (mkStandards [] [] [] [] []) Scale3)
           (Some fx_pdf) (Js.ofAscii "Math") true [] [] (Js.ofAscii "1-2") []).
  vm_compute. reflexivity.
Defined.

(** X29.  The unified analysis never blanks an achievement level: each
    level it hands on is the old text or a non-empty new one, and on the
    three-level scale the levels D and E are left alone. *)
Theorem analysis_keeps_levels (env : Env) (parseLevels : jsstring -> Outcome Levels)
    (data newData : PlanData) (file : option File) (subject : jsstring)
    (confirmed : bool) (planPrompt stdPrompt planPageRange stdPageRange : jsstring) :
  handleUnifiedAnalysis env parseLevels data file subject confirmed
    planPrompt stdPrompt planPageRange stdPageRange = Some newData ->
  let old := achievementStandards data in
  let new := achievementStandards newData in
  (std_A new = std_A old \/ std_A new ≠ [])
  /\ (std_B new = std_B old \/ std_B new ≠ [])
  /\ (std_C new = std_C old \/ std_C new ≠ [])
  /\ (std_D new = std_D old \/ (std_D new ≠ [] /\ achievementScale data = Scale5))
  /\ (std_E new = std_E old \/ (std_E new ≠ [] /\ achievementScale data = Scale5)).
Proof.
  unfold handleUnifiedAnalysis.
  destruct file as [f|]; [|discriminate]. destruct subject as [|c s]; [discriminate|].
  destruct confirmed; [|discriminate]. intros [= <-]. cbn [achievementStandards].
  apply applyStandards_levels.
Qed.

Lemma analysis_keeps_levels_witness :
  let old := mkStandards (Js.ofAscii "a") [] [] [] [] in
  let new := mkStandards (Js.ofAscii "a") [] [] [] [] in
  (std_A new = std_A old \/ std_A new ≠ [])
  /\ (std_B new = std_B old \/ std_B new ≠ [])
  /\ (std_C new = std_C old \/ std_C new ≠ [])
  /\ (std_D new = std_D old \/ (std_D new ≠ [] /\ Scale3 = Scale5))
  /\ (std_E new = std_E old \/ (std_E new ≠ [] /\ Scale3 = Scale5)).
Proof.
  apply (analysis_keeps_levels fx_env_down (fun _ => Rejected JsonSyntaxError)
           (mkPlanData [fx_coded] (mkStandards (Js.ofAscii "a") [] [] [] []) Scale3)
           (mkPlanData [fx_coded] (mkStandards (Js.ofAscii "a") [] [] [] []) Scale3)
           (Some fx_pdf) (Js.ofAscii "Math") true [] [] (Js.ofAscii "1-2") []).
  vm_compute. reflexivity.
Defined.

(** X30.  With the extraction service down, the unified analysis hands on
    the plan data exactly as they were: the plan extraction adds nothing
    and the semester levels come back blank, whichever file, page ranges
    and key are given. *)
Theorem analysis_with_service_down (env : Env) (parseLevels : jsstring -> Outcome Levels)
    (data : PlanData) (file : File) (c : N) (subject : jsstring)
    (planPrompt stdPrompt planPageRange stdPageRange : jsstring) :
  (forall i contents, exists e, generateContent env i contents = Rejected e) ->
  handleUnifiedAnalysis env parseLevels data (Some file) (c :: subject) true
    planPrompt stdPrompt planPageRange stdPageRange = Some data.
Proof.
  intros Hdown. unfold handleUnifiedAnalysis.
  rewrite (semester_blank env parseLevels file stdPrompt _ (or_intror (or_introl Hdown))).
  cbn [catchNull]. rewrite applyStandards_blank.
  assert (Hfails : forall i contents, callFails env i contents).
  { intros i contents. unfold callFails. now destruct (Hdown i contents) as [e ->]. }
  assert (Hplans : forall p : Outcome (list Item),
            (forall out, p = Resolved out -> out = []) ->
            applyPlans (teachingPlans data) (catchNull p) = teachingPlans data).
  { intros [out|e] Hp; [|reflexivity]. now rewrite (Hp out eq_refl). }
  rewrite Hplans; [now destruct data|].
  intros out Hout.
  unfold parseStandardsAndGeneratePlan in Hout.
  destruct (getApiKey env) as [[|c' key]|]; try discriminate.
  assert (Hflow : forall flow : Outcome Flow,
    (forall fl, flow = Resolved fl -> fl = Return [] \/ fl = Proceed []) ->
    (flow ≫= fun fl => match fl with
                       | Return result => Resolved result
                       | Proceed allItems =>
                           match consolidate (dateNow env) allItems with
                           | Some result => Resolved result
                           | None => Rejected TypeError
                           end
                       end) = Resolved out -> out = []).
  { intros [fl|e] Hfl; [|discriminate]. cbn.
    destruct (Hfl fl eq_refl) as [-> | ->]; cbn; congruence. }
  revert Hout. apply Hflow. intros fl Hfl.
  assert (Hsingle : singleExtraction env file planPrompt = Resolved fl ->
                    fl = Return [] \/ fl = Proceed []).
  { unfold singleExtraction.
    destruct (Js.eqb (file_mime file) mimeText).
    - destruct (file_text file); cbn; [|discriminate].
      rewrite analyzeChunk_down by assumption. cbn. intros [= <-]. auto.
    - destruct (file_base64 file); cbn; [|discriminate].
      rewrite analyzeChunk_down by assumption. cbn. intros [= <-]. auto. }
  destruct (Js.eqb (file_mime file) mimePdf); [|auto].
  destruct (hasPageRange (Some planPageRange)) as [r|]; [|auto].
  destruct (chunkedExtraction_down env Hfails file planPrompt r) as [[e He]|[He|He]];
    rewrite He in Hfl; cbn [tryCatch] in Hfl.
  - unfold fallbackExtraction in Hfl.
    destruct (file_base64 file); cbn in Hfl; [|discriminate].
    rewrite analyzeChunk_down in Hfl by assumption. cbn in Hfl.
    injection Hfl as <-. auto.
  - injection Hfl as <-. auto.
  - injection Hfl as <-. auto.
Qed.

Lemma analysis_with_service_down_witness :
  handleUnifiedAnalysis fx_env_down (fun _ => Rejected JsonSyntaxError)
    (mkPlanData [fx_coded] (mkStandards (Js.ofAscii "a") [] [] [] []) Scale5)
    (Some fx_pdf) (0x4D :: Js.ofAscii "ath") true [] [] (Js.ofAscii "1-2") []
  = Some (mkPlanData [fx_coded] (mkStandards (Js.ofAscii "a") [] [] [] []) Scale5).
Proof.
  apply (analysis_with_service_down fx_env_down (fun _ => Rejected JsonSyntaxError)).
  intros i contents. exists ServiceError. reflexivity.
Defined.
